(** * AgentInventory: the usage-statistics aggregation engine

    A shallow embedding of the core of
    [mcp-servers/mcp-agent-inventory/server.py]: the two process-global
    dictionaries [agent_metadata] and [execution_records], the recompute of
    the derived averages on every write, and the statistics computed on read.

    Modelling conventions.
    - A Python [float] is an exact rational ([Q]); Python's [==] on numbers
      is [Qeq].  [round] is round-half-to-even on the exact value and returns
      the reduced fraction, so stored averages compare with Leibniz equality.
    - A Python exception is a constructor of [exn]; a function that can raise
      returns [py A].
    - [agent_metadata] is an insertion-ordered dictionary (its iteration order
      is observable in [list_local_agents]): an association list.  The inner
      metadata dictionary is a record; a missing key and a key bound to
      [None] are both [None], as every reader goes through [dict.get].
    - [execution_records] is only ever looked up, assigned and deleted by key:
      a [gmap].
    - [datetime.now()] is an input of [record_execution]. *)

From Stdlib Require Import ZArith QArith Qround Qabs Lia Lqa Ascii.
From stdpp Require Import gmap strings list sorting.

Local Open Scope Z_scope.

(** ** Python values and exceptions *)

Inductive exn : Type :=
| IndexError
| HTTPException (status_code : Z) (detail : string).

Inductive py (A : Type) : Type :=
| Ret (a : A)
| Raise (e : exn).
Arguments Ret {A} a.
Arguments Raise {A} e.

Global Instance py_ret : MRet py := fun A a => Ret a.
Global Instance py_bind : MBind py := fun A B k m =>
  match m with
  | Ret a => k a
  | Raise e => Raise e
  end.

(** [str(e)] for the exceptions of the model. *)
Definition str_exn (e : exn) : string :=
  match e with
  | IndexError => "list index out of range"
  | HTTPException c d => d
  end.

(** [l[i]] on a Python list: negative indices count from the end, anything
    else out of range raises. *)
Definition py_getitem {A : Type} (l : list A) (i : Z) : py A :=
  let n := Z.of_nat (length l) in
  let j := if i <? 0 then i + n else i in
  if (0 <=? j) && (j <? n) then
    match l !! Z.to_nat j with
    | Some x => Ret x
    | None => Raise IndexError
    end
  else Raise IndexError.

(** ** Numbers *)

Global Instance Qle_dec : RelDecision Qle.
Proof.
  intros x y. destruct (Qlt_le_dec y x) as [H|H].
  - right. apply Qlt_not_le, H.
  - left. exact H.
Defined.

Global Instance Qle_total : Total Qle.
Proof.
  intros x y. destruct (Qlt_le_dec y x) as [H|H].
  - right. apply Qlt_le_weak, H.
  - left. exact H.
Qed.

Global Instance Qle_trans_inst : Transitive Qle.
Proof. intros x y z. apply Qle_trans. Qed.

(** [sorted(data)] *)
Definition sorted (data : list Q) : list Q := merge_sort Qle data.

(** [int(x)]: truncation towards zero. *)
Definition int (x : Q) : Z := Z.quot (Qnum x) (Z.pos (Qden x)).

(** [x.is_integer()] *)
Definition is_integer (x : Q) : bool := Z.rem (Qnum x) (Z.pos (Qden x)) =? 0.

(** [len(l)] as a number. *)
Definition len {A : Type} (l : list A) : Z := Z.of_nat (length l).

(** [sum(l)]: left fold from 0. *)
Definition sum (l : list Q) : Q := fold_left Qplus l 0%Q.

(** Round half to even, to an integer. *)
Definition round_half_even (x : Q) : Z :=
  let f := Qfloor x in
  match Qcompare (x - inject_Z f) (1 # 2) with
  | Lt => f
  | Gt => f + 1
  | Eq => if Z.even f then f else f + 1
  end.

(** [round(x, ndigits)] *)
Definition round (x : Q) (ndigits : nat) : Q :=
  let m := inject_Z (10 ^ Z.of_nat ndigits) in
  Qred (inject_Z (round_half_even (x * m)) / m).

(** ** PercentileCalculator *)

Definition calculate_percentile (data : list Q) (percentile : Q) : py Q :=
  match data with
  | [] => Ret 0%Q
  | _ =>
    let sorted_data := sorted data in
    let index := ((percentile / 100) * inject_Z (len sorted_data - 1))%Q in
    if is_integer index then
      py_getitem sorted_data (int index)
    else
      lower ← py_getitem sorted_data (int index);
      upper ← py_getitem sorted_data (int index + 1);
      Ret (lower + (upper - lower) * (index - inject_Z (int index)))%Q
  end.

(** ** Insertion-ordered dictionaries *)

Abbreviation dict V := (list (string * V)).

Section Dict.
Context {V : Type}.

(** [d.get(k)] *)
Fixpoint dict_get (k : string) (d : dict V) : option V :=
  match d with
  | [] => None
  | (k', v) :: d' => if decide (k' = k) then Some v else dict_get k d'
  end.

(** [k in d] *)
Definition dict_in (k : string) (d : dict V) : bool :=
  match dict_get k d with
  | Some _ => true
  | None => false
  end.

(** [d[k] = v]: an existing key keeps its position, a new key goes last. *)
Fixpoint dict_set (k : string) (v : V) (d : dict V) : dict V :=
  match d with
  | [] => [(k, v)]
  | (k', v') :: d' =>
    if decide (k' = k) then (k, v) :: d' else (k', v') :: dict_set k v d'
  end.

(** In-place mutation of the object stored under [k]. *)
Fixpoint dict_alter (f : V -> V) (k : string) (d : dict V) : dict V :=
  match d with
  | [] => []
  | (k', v) :: d' =>
    if decide (k' = k) then (k', f v) :: d' else (k', v) :: dict_alter f k d'
  end.

(** [del d[k]] *)
Definition dict_del (k : string) (d : dict V) : dict V :=
  filter (fun kv => kv.1 <> k) d.

(** [d.keys()], in iteration order. *)
Definition dict_keys (d : dict V) : list string := d.*1.
End Dict.

(** ** Data model *)

(** The request model [AgentExecution]. *)
Record AgentExecution : Type := {
  agent_id : string;
  execution_id : option string;
  timestamp : option string;
  success : bool;
  runtime_ms : option Q;
  input_tokens : option Z;
  output_tokens : option Z;
  total_tokens : option Z;
  cost_usd : option Q;
  error_message : option string
}.

(** The dictionary [execution_data] appended to the ledger. *)
Record ExecutionData : Type := {
  rec_execution_id : string;
  rec_timestamp : string;
  rec_success : bool;
  rec_runtime_ms : option Q;
  rec_input_tokens : option Z;
  rec_output_tokens : option Z;
  rec_total_tokens : option Z;
  rec_cost_usd : option Q;
  rec_error_message : option string
}.

(** The model [AgentMetadata]; the dictionaries stored in [agent_metadata]
    and the [agent_info] entries of the listing have the same four keys. *)
Record AgentMetadata : Type := {
  id : string;
  description : string;
  avg_cost : option Q;
  avg_latency : option Q
}.

Definition set_avg_cost (v : Q) (m : AgentMetadata) : AgentMetadata :=
  {| id := id m; description := description m;
     avg_cost := Some v; avg_latency := avg_latency m |}.

Definition set_avg_latency (v : Q) (m : AgentMetadata) : AgentMetadata :=
  {| id := id m; description := description m;
     avg_cost := avg_cost m; avg_latency := Some v |}.

Record AgentUsageResponse : Type := {
  total_runs : Z;
  failures : Z;
  avg_input_tokens : Q;
  avg_output_tokens : Q;
  p50_latency_ms : Q;
  p95_latency_ms : Q
}.

Record RecordResponse : Type := {
  rr_status : string;
  rr_message : string;
  rr_execution_id : option string
}.

Record StatusResponse : Type := {
  st_status : string;
  st_message : string
}.

(** The two readings of [datetime.now()] taken by [record_execution]:
    [str(datetime.now().timestamp())] and [datetime.now().isoformat()]. *)
Record Clock : Type := {
  now_timestamp : string;
  now_isoformat : string
}.

(** The two process-global stores. *)
Record State : Type := {
  agent_metadata : dict AgentMetadata;
  execution_records : gmap string (list ExecutionData)
}.

Definition initial : State :=
  {| agent_metadata := []; execution_records := ∅ |}.

(** [x or d] on an optional string: [None] and the empty string are falsy. *)
Definition str_or (x : option string) (d : string) : string :=
  match x with
  | Some (String c r) => String c r
  | _ => d
  end.

(** ** AggregateMaintainer *)

Definition update_agent_averages (agent_id : string) (s : State) : State :=
  let records := default [] (execution_records s !! agent_id) in
  match records with
  | [] => s
  | _ =>
    let costs := omap rec_cost_usd records in
    let avg_cost :=
      match costs with
      | [] => None
      | _ => Some (sum costs / inject_Z (len costs))%Q
      end in
    let latencies := omap rec_runtime_ms records in
    let avg_latency :=
      match latencies with
      | [] => None
      | _ => Some (sum latencies / inject_Z (len latencies))%Q
      end in
    if dict_in agent_id (agent_metadata s) then
      let md := agent_metadata s in
      let md :=
        match avg_cost with
        | Some c => dict_alter (set_avg_cost (round c 6)) agent_id md
        | None => md
        end in
      let md :=
        match avg_latency with
        | Some l => dict_alter (set_avg_latency (round l 2)) agent_id md
        | None => md
        end in
      {| agent_metadata := md; execution_records := execution_records s |}
    else s
  end.

(** ** ExecutionLedger: append *)

(** The dictionary [execution_data] built by [record_execution]. *)
Definition execution_data (now : Clock) (execution : AgentExecution)
    : ExecutionData :=
  {| rec_execution_id :=
       str_or (execution_id execution)
              (agent_id execution +:+ "_" +:+ now_timestamp now);
     rec_timestamp := str_or (timestamp execution) (now_isoformat now);
     rec_success := success execution;
     rec_runtime_ms := runtime_ms execution;
     rec_input_tokens := input_tokens execution;
     rec_output_tokens := output_tokens execution;
     rec_total_tokens := total_tokens execution;
     rec_cost_usd := cost_usd execution;
     rec_error_message := error_message execution |}.

(** The metadata a first execution creates for an unknown agent. *)
Definition default_metadata (agent_id : string) : AgentMetadata :=
  {| id := agent_id; description := "Agent " +:+ agent_id;
     avg_cost := None; avg_latency := None |}.

Definition record_execution (now : Clock) (execution : AgentExecution)
    (s : State) : State :=
  let agent_id := agent_id execution in
  let md :=
    if dict_in agent_id (agent_metadata s) then agent_metadata s
    else dict_set agent_id (default_metadata agent_id) (agent_metadata s) in
  let er :=
    match execution_records s !! agent_id with
    | Some _ => execution_records s
    | None => <[agent_id := []]> (execution_records s)
    end in
  let execution_data := execution_data now execution in
  (* execution_records[agent_id].append(execution_data): the key is bound *)
  let er := alter (fun l => l ++ [execution_data]) agent_id er in
  update_agent_averages agent_id
    {| agent_metadata := md; execution_records := er |}.

(** ** The service operations

    Each handler takes the stores and returns its response (or the exception
    it raises) together with the stores it leaves behind. *)

Definition record_agent_execution (now : Clock) (execution : AgentExecution)
    (s : State) : py RecordResponse * State :=
  let s' := record_execution now execution s in
  (Ret {| rr_status := "success";
          rr_message := "Execution recorded for agent " +:+ agent_id execution;
          rr_execution_id := execution_id execution |}, s').

Definition register_agent (metadata : AgentMetadata) (s : State)
    : py StatusResponse * State :=
  let md :=
    dict_set (id metadata)
      {| id := id metadata; description := description metadata;
         avg_cost := avg_cost metadata; avg_latency := avg_latency metadata |}
      (agent_metadata s) in
  let s' :=
    update_agent_averages (id metadata)
      {| agent_metadata := md; execution_records := execution_records s |} in
  (Ret {| st_status := "success";
          st_message := "Agent " +:+ id metadata +:+ " registered/updated" |},
   s').

(** The loop of [list_local_agents].  [metadata] is the very object stored
    under [agent_id], so the fields are read after [update_agent_averages]
    has mutated it. *)
Fixpoint list_loop (items : list (string * AgentMetadata)) (s : State)
    (agents_list : list AgentMetadata) : list AgentMetadata * State :=
  match items with
  | [] => (agents_list, s)
  | (agent_id, m) :: items' =>
    let s' := update_agent_averages agent_id s in
    let metadata := default m (dict_get agent_id (agent_metadata s')) in
    let agent_info :=
      {| id := id metadata; description := description metadata;
         avg_cost := avg_cost metadata;
         avg_latency := avg_latency metadata |} in
    list_loop items' s' (agents_list ++ [agent_info])
  end.

(** The sort key [lambda x: x["id"]].  Python orders strings by code point,
    which on UTF-8 encoded strings is the bytewise order of [String.le]. *)
Definition by_id (x y : AgentMetadata) : Prop := String.le (id x) (id y).

Global Instance by_id_dec : RelDecision by_id.
Proof. intros x y. unfold by_id. apply _. Defined.

Definition list_local_agents (s : State) : py (list AgentMetadata) * State :=
  let '(agents_list, s') := list_loop (agent_metadata s) s [] in
  (Ret (merge_sort by_id agents_list), s').

Definition list_agents (s : State) : py (list AgentMetadata) * State :=
  list_local_agents s.

(** [sum(1 for r in records if not r.get("success", False))] *)
Definition count_failures (records : list ExecutionData) : Z :=
  len (filter (fun r => rec_success r = false) records).

(** [sum(l) / len(l) if l else 0.0] *)
Definition mean_or_zero (l : list Q) : Q :=
  match l with
  | [] => 0%Q
  | _ => (sum l / inject_Z (len l))%Q
  end.

Definition get_agent_usage_body (agent_id : string) (s : State)
    : py AgentUsageResponse :=
  if negb (dict_in agent_id (agent_metadata s)) then
    Raise (HTTPException 404
             ("Agent " +:+ agent_id +:+ " not found in inventory"))
  else
    let records := default [] (execution_records s !! agent_id) in
    match records with
    | [] =>
      Ret {| total_runs := 0; failures := 0;
             avg_input_tokens := 0; avg_output_tokens := 0;
             p50_latency_ms := 0; p95_latency_ms := 0 |}
    | _ =>
      let total_runs := len records in
      let failures := count_failures records in
      let input_tokens_list := inject_Z <$> omap rec_input_tokens records in
      let avg_input_tokens := mean_or_zero input_tokens_list in
      let output_tokens_list := inject_Z <$> omap rec_output_tokens records in
      let avg_output_tokens := mean_or_zero output_tokens_list in
      let latencies := omap rec_runtime_ms records in
      p50_latency_ms ←
        match latencies with
        | [] => Ret 0%Q
        | _ => calculate_percentile latencies 50
        end;
      p95_latency_ms ←
        match latencies with
        | [] => Ret 0%Q
        | _ => calculate_percentile latencies 95
        end;
      Ret {| total_runs := total_runs; failures := failures;
             avg_input_tokens := round avg_input_tokens 2;
             avg_output_tokens := round avg_output_tokens 2;
             p50_latency_ms := round p50_latency_ms 2;
             p95_latency_ms := round p95_latency_ms 2 |}
    end.

(** [except HTTPException: raise] / [except Exception as e: raise
    HTTPException(500, prefix + str(e))]. *)
Definition reraise {A : Type} (prefix : string) (r : py A) : py A :=
  match r with
  | Ret a => Ret a
  | Raise (HTTPException c d) => Raise (HTTPException c d)
  | Raise e => Raise (HTTPException 500 (prefix +:+ str_exn e))
  end.

Definition get_agent_usage_internal (agent_id : string) (s : State)
    : py AgentUsageResponse * State :=
  (reraise "Error getting agent usage: " (get_agent_usage_body agent_id s), s).

Definition get_local_agent_usage := get_agent_usage_internal.
Definition get_agent_usage := get_agent_usage_internal.

Definition delete_agent (agent_id : string) (s : State)
    : py StatusResponse * State :=
  if negb (dict_in agent_id (agent_metadata s)) then
    (Raise (HTTPException 404
              ("Agent " +:+ agent_id +:+ " not found in inventory")), s)
  else
    let md := dict_del agent_id (agent_metadata s) in
    let er :=
      match execution_records s !! agent_id with
      | Some _ => delete agent_id (execution_records s)
      | None => execution_records s
      end in
    (Ret {| st_status := "success";
            st_message :=
              "Agent " +:+ agent_id +:+ " and all its records deleted" |},
     {| agent_metadata := md; execution_records := er |}).

(** ** Traces of operations *)

Inductive op : Type :=
| RecordExecution (now : Clock) (execution : AgentExecution)
| RegisterAgent (metadata : AgentMetadata)
| GetAgentUsage (agent_id : string)
| ListAgents
| DeleteAgent (agent_id : string).

Definition step (o : op) (s : State) : State :=
  match o with
  | RecordExecution now e => (record_agent_execution now e s).2
  | RegisterAgent m => (register_agent m s).2
  | GetAgentUsage a => (get_agent_usage_internal a s).2
  | ListAgents => (list_local_agents s).2
  | DeleteAgent a => (delete_agent a s).2
  end.

(** The state after running [ops] in order from [s]. *)
Definition run (ops : list op) (s : State) : State :=
  fold_left (fun s o => step o s) ops s.

Definition reachable (s : State) : Prop := exists ops, s = run ops initial.

(** ** Observations and specification-level notions *)


(** The execution history of an agent: [execution_records.get(a, [])]. *)
Definition history (s : State) (a : string) : list ExecutionData :=
  default [] (execution_records s !! a).

(** The averages the registry holds for an agent, as [list_local_agents]
    reads them. *)
Definition stored_avg_cost (s : State) (a : string) : option Q :=
  dict_get a (agent_metadata s) ≫= avg_cost.

Definition stored_avg_latency (s : State) (a : string) : option Q :=
  dict_get a (agent_metadata s) ≫= avg_latency.

Definition registered (s : State) (a : string) : Prop :=
  dict_in a (agent_metadata s) = true.

(** The arithmetic mean. *)
Definition mean (l : list Q) : Q := (sum l / inject_Z (len l))%Q.

(** What a recompute over [records] makes of a stored metadata object: each
    average is overwritten when, and only when, its field has a sample. *)
Definition recomputed (records : list ExecutionData) (m : AgentMetadata)
    : AgentMetadata :=
  let m :=
    match omap rec_cost_usd records with
    | [] => m
    | costs => set_avg_cost (round (mean costs) 6) m
    end in
  match omap rec_runtime_ms records with
  | [] => m
  | latencies => set_avg_latency (round (mean latencies) 2) m
  end.

(** One entry of the registry after a recompute over the ledger [er]. *)
Definition recompute_entry (er : gmap string (list ExecutionData))
    (km : string * AgentMetadata) : string * AgentMetadata :=
  (km.1, recomputed (default [] (er !! km.1)) km.2).

(** The registry after a recompute of every agent. *)
Definition recompute_all (s : State) : dict AgentMetadata :=
  recompute_entry (execution_records s) <$> agent_metadata s.

(** Well-formed stores: a dictionary holds each key once, and every metadata
    object carries the key it is stored under. *)
Record well_formed (s : State) : Prop := {
  wf_keys : NoDup (dict_keys (agent_metadata s));
  wf_ids : forall k m, dict_get k (agent_metadata s) = Some m -> id m = k
}.

(** The invariant of the service: the stores are well formed, every ledger
    entry is non-empty and belongs to a registered agent, and a recompute
    would change no stored metadata. *)
Record consistent (s : State) : Prop := {
  cons_wf : well_formed s;
  cons_nonempty :
    forall a recs, execution_records s !! a = Some recs -> recs <> [];
  cons_registered :
    forall a recs, execution_records s !! a = Some recs -> registered s a;
  cons_current :
    forall a m, dict_get a (agent_metadata s) = Some m ->
                recomputed (history s a) m = m
}.

(** A sequence of [record_execution] calls, each with its clock readings. *)
Definition record_ops (calls : list (Clock * AgentExecution)) : list op :=
  (fun c => RecordExecution c.1 c.2) <$> calls.

(** ** Sample inputs *)

Definition sample_clock : Clock :=
  {| now_timestamp := "1730000000.5"; now_isoformat := "2024-10-27T03:33:20" |}.

(** An execution request that leaves every optional field but the runtime
    and the cost at its default. *)
Definition sample_execution (a : string) (rt cost : option Q)
    : AgentExecution :=
  {| agent_id := a; execution_id := None; timestamp := None;
     success := true; runtime_ms := rt; input_tokens := None;
     output_tokens := None; total_tokens := None; cost_usd := cost;
     error_message := None |}.

Definition sample_calls : list (Clock * AgentExecution) :=
  [(sample_clock, sample_execution "a1" (Some 100%Q) (Some (1 # 3)%Q));
   (sample_clock, sample_execution "a1" (Some 200%Q) None);
   (sample_clock, sample_execution "a1" (Some 300%Q) (Some (1 # 2)%Q))].

Definition sample_state : State := run (record_ops sample_calls) initial.


Definition bare_metadata : AgentMetadata :=
  {| id := "a"; description := "d"; avg_cost := None; avg_latency := None |}.

(** ** Agent lifecycle over a trace *)

(** The operation creates (or re-creates) the registry entry of [a]. *)
Definition creates (a : string) (o : op) : Prop :=
  match o with
  | RecordExecution _ e => agent_id e = a
  | RegisterAgent m => id m = a
  | _ => False
  end.

(** [a] was explicitly registered, or an execution was recorded for it, at
    some point of the trace. *)
Definition ever_created (a : string) (ops : list op) : Prop :=
  exists o, o ∈ ops /\ creates a o.

(** Whether [a] is live after an operation, given whether it was before. *)
Definition live_step (a : string) (o : op) (b : bool) : bool :=
  match o with
  | RecordExecution _ e => if decide (agent_id e = a) then true else b
  | RegisterAgent m => if decide (id m = a) then true else b
  | DeleteAgent a' => if decide (a' = a) then false else b
  | _ => b
  end.

(** [a] was registered, or had an execution recorded, after the last
    [delete_agent] for it (or ever, when there was none). *)
Definition live (a : string) (ops : list op) : bool :=
  fold_left (fun b o => live_step a o b) ops false.

(** Strictly ascending identifiers. *)
Definition by_id_strict (x y : AgentMetadata) : Prop :=
  strict String.le (id x) (id y).

(** Two registrations in descending order of identifier. *)
Definition unordered_state : State :=
  run [RegisterAgent {| id := "zeta"; description := "last";
                        avg_cost := None; avg_latency := None |};
       RegisterAgent {| id := "alpha"; description := "first";
                        avg_cost := Some 1%Q; avg_latency := None |}]
      initial.


(** ** The health endpoint *)

(** The module-level configuration, read from the environment at start-up,
    and the environment variable [root] reads on each call. *)
Record Config : Type := {
  GOOGLE_CLOUD_AVAILABLE : bool;
  PROJECT_ID : string;
  PROJECT_NUMBER : string;
  LOCATION : string;
  GCP_API_KEY : string;
  GOOGLE_APPLICATION_CREDENTIALS : option string
}.

Record RootResponse : Type := {
  service : string;
  version : string;
  status : string;
  endpoints : list (string * string);
  gcp_available : bool;
  gcp_project_id : option string;
  gcp_project_number : option string;
  gcp_location : string;
  gcp_oauth2_configured : bool;
  gcp_configured : bool;
  agent_count : Z;
  total_executions : Z
}.

(** [sum(l)] on integers. *)
Definition sum_Z (l : list Z) : Z := fold_left Z.add l 0.

(** [bool(x)] on a string. *)
Definition str_bool (x : string) : bool :=
  match x with
  | EmptyString => false
  | String _ _ => true
  end.

(** [x if x else None] *)
Definition str_or_none (x : string) : option string :=
  if str_bool x then Some x else None.

(** [root].  The ledger is summed over [execution_records.values()]; the
    order of the values does not matter for an integer sum. *)
Definition root (cfg : Config) (s : State) : RootResponse :=
  {| service := "AgentInventory MCP Server";
     version := "1.0.0";
     status := "running";
     endpoints :=
       [("local_agents", "GET /local/agents");
        ("local_usage", "GET /local/agents/{agent_id}/usage");
        ("deployed_agents", "GET /deployed/agents");
        ("deployed_usage", "GET /deployed/agents/{agent_id}/usage");
        ("record_execution", "POST /record_execution");
        ("register_agent", "POST /register_agent");
        ("delete_agent", "DELETE /agent/{agent_id}");
        ("list_agents", "GET /list_agents [DEPRECATED - use /local/agents]");
        ("usage",
         "GET /usage?agent={agent_id} [DEPRECATED - use /local/agents/{agent_id}/usage]");
        ("mcp_reas_engine_agents",
         "GET /mcp-reas-engine/agents [DEPRECATED - use /deployed/agents]");
        ("mcp_reas_engine_usage",
         "GET /mcp-reas-engine/usage?agent_id={agent_id} [DEPRECATED]");
        ("mcp_reas_engine_all", "GET /mcp-reas-engine/all [DEPRECATED]")];
     gcp_available := GOOGLE_CLOUD_AVAILABLE cfg;
     gcp_project_id := str_or_none (PROJECT_ID cfg);
     gcp_project_number := str_or_none (PROJECT_NUMBER cfg);
     gcp_location := LOCATION cfg;
     gcp_oauth2_configured :=
       match GOOGLE_APPLICATION_CREDENTIALS cfg with
       | Some x => str_bool x
       | None => false
       end;
     gcp_configured := str_bool (PROJECT_ID cfg);
     agent_count := len (agent_metadata s);
     total_executions :=
       sum_Z (len <$> (map_to_list (execution_records s)).*2) |}.

Definition sample_config : Config :=
  {| GOOGLE_CLOUD_AVAILABLE := false; PROJECT_ID := EmptyString;
     PROJECT_NUMBER := EmptyString; LOCATION := "us-central1";
     GCP_API_KEY := EmptyString; GOOGLE_APPLICATION_CREDENTIALS := None |}.

(** ** Identifiers of deployed agents *)

(** [sub in s] on strings. *)
Fixpoint str_contains (sub s : string) : bool :=
  if String.prefix sub s then true
  else
    match s with
    | EmptyString => false
    | String _ s' => str_contains sub s'
    end.

(** [s.split(sep)] for a non-empty separator: the occurrences are taken
    from the left and do not overlap.  [skip] counts the characters of a
    matched separator that are still to be passed over. *)
Fixpoint split_go (sep : string) (skip : nat) (s : string) : list string :=
  match s with
  | EmptyString => [EmptyString]
  | String c s' =>
    match skip with
    | S n => split_go sep n s'
    | O =>
      if String.prefix sep (String c s') then
        EmptyString :: split_go sep (String.length sep - 1) s'
      else
        match split_go sep 0 s' with
        | piece :: pieces => String c piece :: pieces
        | [] => [String c EmptyString]
        end
    end
  end.

Definition str_split (sep s : string) : list string := split_go sep 0 s.

(** [s.split(sep)[-1]] *)
Definition last_piece (sep s : string) : string :=
  default EmptyString (last (str_split sep s)).

(** The short id that [list_gcp_agents_internal] derives from the full
    resource name of a reasoning engine. *)
Definition short_agent_id (full_name : string) : string :=
  if str_contains "/" full_name then last_piece "/" full_name
  else full_name.

(** The identifier [get_gcp_agent_usage_internal] puts in the metric filter
    for the [agent_id] it is given. *)
Definition usage_agent_id (agent_id : string) : string :=
  if str_contains "/reasoningEngines/" agent_id then
    last_piece "/reasoningEngines/" agent_id
  else if str_contains "/" agent_id then last_piece "/" agent_id
  else agent_id.

(** The identifier [get_gcp_all] queries for an entry of the listing:
    [a.get("agent_id") or (a["id"].split("/")[-1] if "/" in a["id"] else
    a["id"])]. *)
Definition all_agent_id (entry_agent_id : option string) (entry_id : string)
    : string :=
  match entry_agent_id with
  | Some (String c r) => String c r
  | _ => if str_contains "/" entry_id then last_piece "/" entry_id
         else entry_id
  end.

(** [s.replace(old, new)] for a non-empty [old]: the occurrences are taken
    from the left and do not overlap. *)
Fixpoint replace_go (old new : string) (skip : nat) (s : string) : string :=
  match s with
  | EmptyString => EmptyString
  | String c s' =>
    match skip with
    | S n => replace_go old new n s'
    | O =>
      if String.prefix old (String c s') then
        new +:+ replace_go old new (String.length old - 1) s'
      else String c (replace_go old new 0 s')
    end
  end.

Definition str_replace (old new s : string) : string :=
  replace_go old new 0 s.

(** [s[:n]] *)
Fixpoint str_take (n : nat) (s : string) : string :=
  match n, s with
  | S n', String c s' => String c (str_take n' s')
  | _, _ => EmptyString
  end.

(** The [create_time] and [update_time] of a listed agent, from the
    [createTime] and [updateTime] of the engine:
    [t.replace("T", " ").replace("Z", empty)[:19] if t else None]. *)
Definition format_time (t : option string) : option string :=
  match t with
  | Some (String c r) =>
    Some (str_take 19
            (str_replace "Z" EmptyString (str_replace "T" " " (String c r))))
  | _ => None
  end.

(** * ReasoningCost: the cost estimate of a reasoning trace

    The formula functions of [mcp-servers/mcp-reasoning-cost/server.py] and
    the [/estimate] handler that combines them. *)

Module ReasoningCost.

Inductive exn : Type :=
| KeyError (key : string)
| HTTPException (status_code : Z) (detail : string).

Inductive py (A : Type) : Type :=
| Ret (a : A)
| Raise (e : exn).
Arguments Ret {A} a.
Arguments Raise {A} e.

Global Instance py_ret : MRet py := fun A a => Ret a.
Global Instance py_bind : MBind py := fun A B k m =>
  match m with
  | Ret a => k a
  | Raise e => Raise e
  end.

(** [str(e)]: a [KeyError] shows its key in quotes. *)
Definition str_exn (e : exn) : string :=
  match e with
  | KeyError key => "'" +:+ key +:+ "'"
  | HTTPException c d => d
  end.

Definition BASE_TOKENS : Z := 500.
Definition BASE_STEPS : Z := 5.
Definition BASE_TOOL_CALLS : Z := 1.

(** The default prices, read from the environment at start-up. *)
Record Config : Type := {
  DEFAULT_INPUT_TOKEN_PRICE_PER_MILLION : Q;
  DEFAULT_OUTPUT_TOKEN_PRICE_PER_MILLION : Q
}.

(** The prices used when the environment sets none. *)
Definition default_config : Config :=
  {| DEFAULT_INPUT_TOKEN_PRICE_PER_MILLION := 1.25;
     DEFAULT_OUTPUT_TOKEN_PRICE_PER_MILLION := 10 |}.

(** [MODEL_PRICING]: per model, the input and the output price per million
    tokens. *)
Definition MODEL_PRICING : dict (Q * Q) :=
  [("gemini-2.5-pro", (1.25, 10)%Q);
   ("gemini-1.5-pro", (1.25, 5)%Q);
   ("gemini-1.5-flash", (0.075, 0.30)%Q);
   ("gpt-4", (10, 30)%Q);
   ("gpt-4-turbo", (10, 30)%Q);
   ("gpt-3.5-turbo", (0.50, 1.50)%Q)].

Record Trace : Type := {
  steps : Z;
  tool_calls : Z;
  tokens_in_trace : Z;
  input_tokens : option Z;
  output_tokens : option Z;
  model : option string
}.


(** [min(a, b)]: the first argument unless the second is smaller. *)
Definition py_min (a b : Q) : Q := if Qlt_le_dec b a then b else a.

Definition calculate_expansion_factor (tokens_in_trace steps : Z) : Q :=
  if steps =? 0 then 1%Q
  else
    let expected_tokens_per_step :=
      (inject_Z BASE_TOKENS / inject_Z BASE_STEPS)%Q in
    let expected_tokens := (inject_Z steps * expected_tokens_per_step)%Q in
    if Qeq_bool expected_tokens 0 then 1%Q
    else
      let expansion := (inject_Z tokens_in_trace / expected_tokens)%Q in
      py_min (round expansion 2) 3.

(** The dictionary returned by [calculate_llm_cost].  The keys
    [input_tokens] and [output_tokens] are present in one of its two shapes
    only: [None] stands for a missing key. *)
Record CostBreakdown : Type := {
  cb_estimated_cost_usd : option Q;
  cb_input_cost_usd : option Q;
  cb_output_cost_usd : option Q;
  cb_input_tokens : option (option Z);
  cb_output_tokens : option (option Z);
  cb_model : option string
}.

(** The truth value of an optional integer: [None] and 0 are falsy. *)
Definition int_bool (x : option Z) : bool :=
  match x with
  | Some n => negb (n =? 0)
  | None => false
  end.

Definition calculate_llm_cost (cfg : Config)
    (input_tokens output_tokens : option Z) (model : option string)
    : CostBreakdown :=
  match input_tokens, output_tokens with
  | None, None =>
    {| cb_estimated_cost_usd := None; cb_input_cost_usd := None;
       cb_output_cost_usd := None; cb_input_tokens := None;
       cb_output_tokens := None; cb_model := model |}
  | _, _ =>
    let priced :=
      match model with
      | Some (String c r) => dict_get (String c r) MODEL_PRICING
      | _ => None
      end in
    let input_price_per_m :=
      match priced with
      | Some p => p.1
      | None => DEFAULT_INPUT_TOKEN_PRICE_PER_MILLION cfg
      end in
    let output_price_per_m :=
      match priced with
      | Some p => p.2
      | None => DEFAULT_OUTPUT_TOKEN_PRICE_PER_MILLION cfg
      end in
    let input_cost :=
      if int_bool input_tokens then
        (inject_Z (default 0%Z input_tokens) / 1000000 * input_price_per_m)%Q
      else 0%Q in
    let output_cost :=
      if int_bool output_tokens then
        (inject_Z (default 0%Z output_tokens) / 1000000 * output_price_per_m)%Q
      else 0%Q in
    let total_cost := (input_cost + output_cost)%Q in
    {| cb_estimated_cost_usd := Some (round total_cost 6);
       cb_input_cost_usd :=
         if int_bool input_tokens then Some (round input_cost 6) else None;
       cb_output_cost_usd :=
         if int_bool output_tokens then Some (round output_cost 6) else None;
       cb_input_tokens := Some input_tokens;
       cb_output_tokens := Some output_tokens;
       cb_model := Some (str_or model "default") |}
  end.

Definition calculate_cost_score (steps tool_calls tokens_in_trace : Z)
    (expansion_factor : Q) : Q :=
  let steps_score := (py_min (inject_Z steps / 20) 1 * 0.4)%Q in
  let tool_score := (py_min (inject_Z tool_calls / 10) 1 * 0.3)%Q in
  let expansion_score :=
    (py_min ((expansion_factor - 1) / 2) 1 * 0.3)%Q in
  let total_score := (steps_score + tool_score + expansion_score)%Q in
  round total_score 2.




Definition sample_trace : Trace :=
  {| steps := 8; tool_calls := 3; tokens_in_trace := 1200;
     input_tokens := Some 1000; output_tokens := Some 200;
     model := Some "gpt-4" |}.

End ReasoningCost.

(** * mcp-tokenstats: model pricing

    The pricing functions of [mcp-tokenstats/server.py].  Model names are
    ASCII strings; prices and hours are exact rationals. *)

Module TokenStats.

(** An entry of [MODEL_PRICING]: [None] stands for a key the entry does
    not have. *)
Record PricingEntry : Type := {
  entry_input : option Q;
  entry_input_extended : option Q;
  entry_input_audio : option Q;
  entry_output : option Q;
  entry_output_extended : option Q;
  entry_threshold : option Z
}.

Definition MODEL_PRICING : dict PricingEntry :=
  [("gemini-2.5-pro",
    {| entry_input := Some 1.25%Q; entry_input_extended := Some 2.50%Q;
       entry_input_audio := None; entry_output := Some 10%Q;
       entry_output_extended := Some 15%Q;
       entry_threshold := Some 200000 |});
   ("gemini-2.5-flash",
    {| entry_input := Some 0.30%Q; entry_input_extended := None;
       entry_input_audio := Some 1%Q; entry_output := Some 2.50%Q;
       entry_output_extended := None; entry_threshold := None |});
   ("gemini-2.5-flash-preview-09-2025",
    {| entry_input := Some 0.30%Q; entry_input_extended := None;
       entry_input_audio := Some 1%Q; entry_output := Some 2.50%Q;
       entry_output_extended := None; entry_threshold := None |});
   ("gemini-1.5-pro",
    {| entry_input := Some 1.25%Q; entry_input_extended := Some 2.50%Q;
       entry_input_audio := None; entry_output := Some 5%Q;
       entry_output_extended := Some 7.50%Q;
       entry_threshold := Some 200000 |});
   ("gemini-1.5-flash",
    {| entry_input := Some 0.075%Q; entry_input_extended := None;
       entry_input_audio := None; entry_output := Some 0.30%Q;
       entry_output_extended := None; entry_threshold := None |});
   ("gemini-1.5-flash-8b",
    {| entry_input := Some 0.0375%Q; entry_input_extended := None;
       entry_input_audio := None; entry_output := Some 0.15%Q;
       entry_output_extended := None; entry_threshold := None |})].

(** [MODEL_PRICING["gemini-2.5-flash"]["input"]] and [["output"]] *)
Definition DEFAULT_INPUT_COST_PER_MILLION : Q := 0.30.
Definition DEFAULT_OUTPUT_COST_PER_MILLION : Q := 2.50.

(** The dictionary returned by [get_model_pricing]. *)
Record Pricing : Type := {
  input : Q;
  output : Q;
  input_extended : option Q;
  output_extended : option Q;
  threshold : Z
}.

(** [c.lower()] on an ASCII character *)
Definition lower_char (c : ascii) : ascii :=
  let n := nat_of_ascii c in
  if Nat.leb 65 n && Nat.leb n 90 then ascii_of_nat (n + 32) else c.

(** [s.lower()] *)
Fixpoint lower (s : string) : string :=
  match s with
  | EmptyString => EmptyString
  | String c s' => String (lower_char c) (lower s')
  end.

(** The dictionary built from a matching entry. *)
Definition entry_pricing (pricing : PricingEntry) : Pricing :=
  {| input := default DEFAULT_INPUT_COST_PER_MILLION (entry_input pricing);
     output :=
       default DEFAULT_OUTPUT_COST_PER_MILLION (entry_output pricing);
     input_extended := entry_input_extended pricing;
     output_extended := entry_output_extended pricing;
     threshold := default 200000 (entry_threshold pricing) |}.

Definition default_pricing : Pricing :=
  {| input := DEFAULT_INPUT_COST_PER_MILLION;
     output := DEFAULT_OUTPUT_COST_PER_MILLION;
     input_extended := None;
     output_extended := None;
     threshold := 200000 |}.

(** [key in model_key or model_key in key] *)
Definition partial_match (model_key : string)
    (item : string * PricingEntry) : bool :=
  str_contains item.1 model_key || str_contains model_key item.1.

Definition get_model_pricing (model_name : string) : Pricing :=
  let model_key := lower model_name in
  match dict_get model_key MODEL_PRICING with
  | Some pricing => entry_pricing pricing
  | None =>
    match List.find (partial_match model_key) MODEL_PRICING with
    | Some (_, pricing) => entry_pricing pricing
    | None => default_pricing
    end
  end.

(** The dictionary returned by [calculate_cost]. *)
Record Cost : Type := {
  input_cost_usd : Q;
  output_cost_usd : Q;
  context_cache_cost_usd : option Q;
  total_cost_usd : Q;
  input_price_per_m : Q;
  output_price_per_m : Q;
  pricing_tier : string;
  cost_threshold : Z
}.

(** The truth value of an optional price: [None] and 0.0 are falsy. *)
Definition price_bool (x : option Q) : bool :=
  match x with
  | Some q => negb (Qeq_bool q 0)
  | None => false
  end.

Definition calculate_cost (input_tokens output_tokens : Z)
    (model_name : string) (context_cache_storage_hours : Q)
    (context_cache_tokens : Z) : Cost :=
  let pricing := get_model_pricing model_name in
  let threshold := threshold pricing in
  let '(input_price_per_m, pricing_tier) :=
    match input_extended pricing with
    | Some extended =>
      if price_bool (Some extended) && (threshold <? input_tokens)
      then (extended, "extended")
      else (input pricing, "standard")
    | None => (input pricing, "standard")
    end in
  let input_cost :=
    (inject_Z input_tokens / 1000000 * input_price_per_m)%Q in
  let output_price_per_m :=
    match output_extended pricing with
    | Some extended =>
      if price_bool (Some extended) && (threshold <? output_tokens)
      then extended
      else output pricing
    | None => output pricing
    end in
  let output_cost :=
    (inject_Z output_tokens / 1000000 * output_price_per_m)%Q in
  let context_cache_cost :=
    if Qlt_le_dec 0 context_cache_storage_hours
    then if 0 <? context_cache_tokens
         then (inject_Z context_cache_tokens / 1000000 *
               context_cache_storage_hours * 4.50)%Q
         else 0%Q
    else 0%Q in
  let total_cost := (input_cost + output_cost + context_cache_cost)%Q in
  {| input_cost_usd := round input_cost 6;
     output_cost_usd := round output_cost 6;
     context_cache_cost_usd :=
       if Qlt_le_dec 0 context_cache_cost
       then Some (round context_cache_cost 6) else None;
     total_cost_usd := round total_cost 6;
     input_price_per_m := input_price_per_m;
     output_price_per_m := output_price_per_m;
     pricing_tier := pricing_tier;
     cost_threshold := threshold |}.

End TokenStats.

(** * Properties *)

(** ** Numbers and list indexing *)

Lemma int_nonneg (x : Q) : (0 <= x)%Q -> int x = Qfloor x.
Proof.
  destruct x as [n d]. unfold Qle, int, Qfloor; simpl. intros H.
  apply Z.quot_div_nonneg; lia.
Qed.

Lemma is_integer_nonneg (x : Q) :
  (0 <= x)%Q -> is_integer x = true <-> (x == inject_Z (Qfloor x))%Q.
Proof.
  destruct x as [n d]. unfold Qle, is_integer, Qfloor, Qeq; simpl. intros H.
  rewrite Z.eqb_eq, Z.rem_mod_nonneg by lia.
  rewrite <- (Z.div_exact n (Z.pos d)) by lia. lia.
Qed.

Lemma py_getitem_in_range {A : Type} (l : list A) (i : Z) :
  0 <= i < len l ->
  exists x, l !! Z.to_nat i = Some x /\ py_getitem l i = Ret x.
Proof.
  unfold len. intros Hi.
  destruct (lookup_lt_is_Some_2 l (Z.to_nat i)) as [x Hx]; [lia|].
  exists x. split; [exact Hx|]. unfold py_getitem.
  replace (i <? 0) with false by (symmetry; apply Z.ltb_ge; lia).
  replace (0 <=? i) with true by (symmetry; apply Z.leb_le; lia).
  replace (i <? Z.of_nat (length l)) with true
    by (symmetry; apply Z.ltb_lt; lia).
  simpl. rewrite Hx. reflexivity.
Qed.


Lemma sorted_Permutation (data : list Q) : sorted data ≡ₚ data.
Proof. apply merge_sort_Permutation. Qed.

Lemma sorted_length (data : list Q) : length (sorted data) = length data.
Proof. apply Permutation_length, sorted_Permutation. Qed.

(** The fractional rank of a percentile in [0, 100] lies in [0, n - 1]. *)
Lemma rank_bounds (p : Q) (n : Z) :
  (0 <= p)%Q -> (p <= 100)%Q -> 1 <= n ->
  (0 <= p / 100 * inject_Z (n - 1) <= inject_Z (n - 1))%Q.
Proof.
  intros Hp0 Hp1 Hn.
  assert (Hc : (0 <= inject_Z (n - 1))%Q)
    by (change 0%Q with (inject_Z 0); rewrite <- Zle_Qle; lia).
  assert (Hq : (0 <= p / 100 /\ p / 100 <= 1)%Q).
  { split.
    - apply Qle_shift_div_l; [reflexivity|]. lra.
    - apply Qle_shift_div_r; [reflexivity|]. lra. }
  destruct Hq as [Hq0 Hq1]. split.
  - apply Qmult_le_0_compat; assumption.
  - rewrite <- (Qmult_1_l (inject_Z (n - 1))) at 2.
    apply Qmult_le_compat_r; assumption.
Qed.

Lemma floor_rank_bounds (x : Q) (m : Z) :
  (0 <= x <= inject_Z m)%Q ->
  0 <= Qfloor x <= m /\
  (~ (x == inject_Z (Qfloor x))%Q -> Qfloor x + 1 <= m).
Proof.
  intros [H0 H1].
  assert (Hlo : 0 <= Qfloor x).
  { change 0 with (Qfloor 0). apply Qfloor_resp_le, H0. }
  assert (Hhi : Qfloor x <= m).
  { rewrite <- (Qfloor_Z m). apply Qfloor_resp_le, H1. }
  split; [lia|]. intros Hni.
  destruct (Z.eq_dec (Qfloor x) m) as [E|E]; [|lia].
  exfalso. apply Hni. apply Qle_antisym.
  - rewrite E. exact H1.
  - apply Qfloor_le.
Qed.

(** ** PercentileCalculator *)

Lemma calculate_percentile_cons (x : Q) (data : list Q) (p : Q) :
  (0 <= p)%Q -> (p <= 100)%Q ->
  let srt := sorted (x :: data) in
  let index := (p / 100 * inject_Z (len (x :: data) - 1))%Q in
  let i := Z.to_nat (Qfloor index) in
  if Qeq_bool index (inject_Z (Qfloor index)) then
    exists v, srt !! i = Some v /\ calculate_percentile (x :: data) p = Ret v
  else
    exists lower upper,
      srt !! i = Some lower /\ srt !! S i = Some upper /\
      calculate_percentile (x :: data) p =
      Ret (lower + (upper - lower) * (index - inject_Z (Qfloor index)))%Q.
Proof.
  intros Hp0 Hp1 srt index i.
  assert (Hlen : len srt = len (x :: data))
    by (unfold len, srt; rewrite sorted_length; reflexivity).
  assert (Hn : 1 <= len (x :: data)) by (unfold len; simpl; lia).
  pose proof (rank_bounds p _ Hp0 Hp1 Hn) as Hb. fold index in Hb.
  destruct (floor_rank_bounds _ _ Hb) as [Hfl Hnon].
  pose proof (int_nonneg index (proj1 Hb)) as Hint.
  pose proof (is_integer_nonneg index (proj1 Hb)) as Hisint.
  unfold calculate_percentile. fold srt. rewrite Hlen. fold index.
  destruct (Qeq_bool index (inject_Z (Qfloor index))) eqn:E.
  - apply Qeq_bool_iff in E.
    replace (is_integer index) with true by (symmetry; apply Hisint, E).
    rewrite Hint.
    destruct (py_getitem_in_range srt (Qfloor index)) as (v & Hv & Hg);
      [lia|].
    exists v. split; assumption.
  - assert (Hni : ~ (index == inject_Z (Qfloor index))%Q).
    { intros H. apply Qeq_bool_iff in H. congruence. }
    specialize (Hnon Hni).
    destruct (is_integer index) eqn:E'.
    { exfalso. apply Hni, Hisint. reflexivity. }
    rewrite Hint.
    destruct (py_getitem_in_range srt (Qfloor index)) as (lo & Hlo & Hglo);
      [lia|].
    destruct (py_getitem_in_range srt (Qfloor index + 1)) as (up & Hup & Hgup);
      [lia|].
    exists lo, up. split; [exact Hlo|]. split.
    + replace (S i) with (Z.to_nat (Qfloor index + 1)) by (unfold i; lia).
      exact Hup.
    + rewrite Hglo, Hgup. reflexivity.
Qed.





(** ** Insertion-ordered dictionaries *)

Section DictFacts.
Context {V : Type}.
Implicit Types (d : dict V) (k : string) (v : V).

Lemma dict_in_true k d : dict_in k d = true <-> is_Some (dict_get k d).
Proof.
  unfold dict_in. destruct (dict_get k d); split; intros H;
    try reflexivity; try discriminate; eauto.
  destruct H; discriminate.
Qed.

Lemma dict_in_false k d : dict_in k d = false <-> dict_get k d = None.
Proof. unfold dict_in. destruct (dict_get k d); split; congruence. Qed.

Lemma dict_in_keys k d : dict_in k d = true <-> k ∈ dict_keys d.
Proof.
  rewrite dict_in_true. unfold dict_keys.
  induction d as [|[k' v'] d IH]; simpl.
  - split; [intros [? ?]; discriminate | intros H; inversion H].
  - rewrite elem_of_cons. destruct (decide (k' = k)) as [->|Hne].
    + split; eauto.
    + rewrite IH. split; [tauto | intros [?|?]; [congruence | assumption]].
Qed.

Lemma dict_get_set_eq k v d : dict_get k (dict_set k v d) = Some v.
Proof.
  induction d as [|[k' v'] d IH]; simpl.
  - rewrite decide_True; reflexivity.
  - destruct (decide (k' = k)) as [->|Hne]; simpl.
    + rewrite decide_True; reflexivity.
    + rewrite decide_False by assumption. exact IH.
Qed.

Lemma dict_get_set_ne k k' v d :
  k <> k' -> dict_get k' (dict_set k v d) = dict_get k' d.
Proof.
  intros Hne. induction d as [|[k0 v0] d IH]; simpl.
  - rewrite decide_False; [reflexivity | assumption].
  - destruct (decide (k0 = k)) as [->|Hne0]; simpl.
    + rewrite !decide_False by assumption. reflexivity.
    + destruct (decide (k0 = k')); [reflexivity | exact IH].
Qed.

Lemma dict_get_alter_eq f k d :
  dict_get k (dict_alter f k d) = f <$> dict_get k d.
Proof.
  induction d as [|[k' v'] d IH]; simpl; [reflexivity|].
  destruct (decide (k' = k)) as [->|Hne]; simpl.
  - rewrite decide_True; reflexivity.
  - rewrite decide_False by assumption. exact IH.
Qed.

Lemma dict_get_alter_ne f k k' d :
  k <> k' -> dict_get k' (dict_alter f k d) = dict_get k' d.
Proof.
  intros Hne. induction d as [|[k0 v0] d IH]; simpl; [reflexivity|].
  destruct (decide (k0 = k)) as [->|Hne0]; simpl.
  - rewrite !decide_False by assumption. reflexivity.
  - destruct (decide (k0 = k')); [reflexivity | exact IH].
Qed.

Lemma dict_get_del_eq k d : dict_get k (dict_del k d) = None.
Proof.
  unfold dict_del. induction d as [|[k' v'] d IH]; [reflexivity|].
  rewrite filter_cons. simpl. destruct (decide (k' <> k)) as [Hne|He].
  - simpl. rewrite decide_False by assumption. exact IH.
  - exact IH.
Qed.

Lemma dict_get_del_ne k k' d :
  k <> k' -> dict_get k' (dict_del k d) = dict_get k' d.
Proof.
  intros Hne. unfold dict_del.
  induction d as [|[k0 v0] d IH]; [reflexivity|].
  rewrite filter_cons. simpl. destruct (decide (k0 <> k)) as [Hne0|He].
  - simpl. destruct (decide (k0 = k')); [reflexivity | exact IH].
  - apply dec_stable in He. subst k0.
    rewrite decide_False by assumption. exact IH.
Qed.

Lemma dict_keys_alter f k d : dict_keys (dict_alter f k d) = dict_keys d.
Proof.
  unfold dict_keys. induction d as [|[k' v'] d IH]; simpl; [reflexivity|].
  destruct (decide (k' = k)); simpl; [reflexivity | f_equal; exact IH].
Qed.

Lemma dict_keys_set k v d :
  dict_keys (dict_set k v d) =
  if dict_in k d then dict_keys d else dict_keys d ++ [k].
Proof.
  unfold dict_keys, dict_in.
  induction d as [|[k' v'] d IH]; simpl; [reflexivity|].
  destruct (decide (k' = k)) as [->|Hne]; [reflexivity|].
  rewrite fmap_cons, IH. destruct (dict_get k d); reflexivity.
Qed.

Lemma dict_keys_del k d :
  dict_keys (dict_del k d) = filter (fun k' => k' <> k) (dict_keys d).
Proof.
  unfold dict_keys, dict_del.
  induction d as [|[k' v'] d IH]; [reflexivity|].
  rewrite fmap_cons, !filter_cons. simpl.
  destruct (decide (k' <> k)); simpl; [f_equal|]; exact IH.
Qed.

Lemma dict_alter_same f k d : (forall v, f v = v) -> dict_alter f k d = d.
Proof.
  intros H. induction d as [|[k' v'] d IH]; simpl; [reflexivity|].
  destruct (decide (k' = k)); [rewrite H | rewrite IH]; reflexivity.
Qed.

Lemma dict_alter_compose f g k d :
  dict_alter g k (dict_alter f k d) = dict_alter (fun v => g (f v)) k d.
Proof.
  induction d as [|[k' v'] d IH]; simpl; [reflexivity|].
  destruct (decide (k' = k)) as [->|Hne]; simpl.
  - rewrite decide_True; reflexivity.
  - rewrite decide_False by assumption. rewrite IH. reflexivity.
Qed.

(** Altering the first binding of [k]. *)
Lemma dict_alter_middle f k v d1 d2 :
  k ∉ dict_keys d1 ->
  dict_alter f k (d1 ++ (k, v) :: d2) = d1 ++ (k, f v) :: d2.
Proof.
  unfold dict_keys. induction d1 as [|[k' v'] d1 IH]; simpl; intros Hk.
  - rewrite decide_True; reflexivity.
  - rewrite not_elem_of_cons in Hk. destruct Hk as [Hne Hk].
    rewrite decide_False by congruence. rewrite IH by assumption.
    reflexivity.
Qed.

Lemma dict_get_elem_of k v d :
  NoDup (dict_keys d) -> (k, v) ∈ d <-> dict_get k d = Some v.
Proof.
  unfold dict_keys. induction d as [|[k' v'] d IH]; simpl; intros Hnd.
  - split; [intros H; inversion H | discriminate].
  - apply NoDup_cons in Hnd. destruct Hnd as [Hk' Hnd].
    rewrite elem_of_cons. destruct (decide (k' = k)) as [->|Hne].
    + split.
      * intros [E|Hin]; [congruence|]. exfalso. apply Hk'.
        apply (list_elem_of_fmap_2 fst) in Hin. exact Hin.
      * intros E. left. congruence.
    + rewrite <- IH by assumption. split.
      * intros [E|Hin]; [congruence | assumption].
      * intros Hin. right. exact Hin.
Qed.
End DictFacts.

Lemma dict_alter_absent {V : Type} (f : V -> V) (k : string) (d : dict V) :
  dict_get k d = None -> dict_alter f k d = d.
Proof.
  induction d as [|[k' v'] d IH]; simpl; [reflexivity|].
  destruct (decide (k' = k)); [discriminate|].
  intros H. rewrite IH by assumption. reflexivity.
Qed.

(** ** AggregateMaintainer *)

(** [update_agent_averages] is one in-place mutation of the agent's metadata
    object, and touches nothing else. *)
Lemma update_agent_averages_alter (a : string) (s : State) :
  update_agent_averages a s =
  {| agent_metadata := dict_alter (recomputed (history s a)) a (agent_metadata s);
     execution_records := execution_records s |}.
Proof.
  unfold update_agent_averages, history. destruct s as [md er]; simpl.
  destruct (default [] (er !! a)) as [|r rs] eqn:Eh.
  - rewrite dict_alter_same; [reflexivity|]. intros v. reflexivity.
  - set (records := r :: rs). unfold recomputed, mean.
    destruct (dict_in a md) eqn:Ein.
    + destruct (omap rec_cost_usd records), (omap rec_runtime_ms records);
        rewrite ?dict_alter_compose; try reflexivity.
      rewrite dict_alter_same; [reflexivity|]. intros v. reflexivity.
    + apply dict_in_false in Ein. rewrite dict_alter_absent by assumption.
      reflexivity.
Qed.

Lemma update_agent_averages_records (a : string) (s : State) :
  execution_records (update_agent_averages a s) = execution_records s.
Proof. rewrite update_agent_averages_alter. reflexivity. Qed.

Lemma update_agent_averages_history (a b : string) (s : State) :
  history (update_agent_averages a s) b = history s b.
Proof. unfold history. rewrite update_agent_averages_records. reflexivity. Qed.

Lemma update_agent_averages_keys (a : string) (s : State) :
  dict_keys (agent_metadata (update_agent_averages a s)) =
  dict_keys (agent_metadata s).
Proof. rewrite update_agent_averages_alter. apply dict_keys_alter. Qed.

Lemma update_agent_averages_get (a : string) (s : State) :
  dict_get a (agent_metadata (update_agent_averages a s)) =
  recomputed (history s a) <$> dict_get a (agent_metadata s).
Proof. rewrite update_agent_averages_alter. apply dict_get_alter_eq. Qed.

Lemma update_agent_averages_get_ne (a b : string) (s : State) :
  a <> b ->
  dict_get b (agent_metadata (update_agent_averages a s)) =
  dict_get b (agent_metadata s).
Proof.
  intros H. rewrite update_agent_averages_alter. apply dict_get_alter_ne, H.
Qed.

Lemma recomputed_avg_cost (records : list ExecutionData) (m : AgentMetadata) :
  avg_cost (recomputed records m) =
  match omap rec_cost_usd records with
  | [] => avg_cost m
  | costs => Some (round (mean costs) 6)
  end.
Proof.
  unfold recomputed.
  destruct (omap rec_cost_usd records), (omap rec_runtime_ms records);
    reflexivity.
Qed.

Lemma recomputed_avg_latency (records : list ExecutionData)
    (m : AgentMetadata) :
  avg_latency (recomputed records m) =
  match omap rec_runtime_ms records with
  | [] => avg_latency m
  | latencies => Some (round (mean latencies) 2)
  end.
Proof.
  unfold recomputed.
  destruct (omap rec_cost_usd records), (omap rec_runtime_ms records);
    reflexivity.
Qed.

Lemma recomputed_id (records : list ExecutionData) (m : AgentMetadata) :
  id (recomputed records m) = id m /\
  description (recomputed records m) = description m.
Proof.
  unfold recomputed.
  destruct (omap rec_cost_usd records), (omap rec_runtime_ms records);
    split; reflexivity.
Qed.

(** ** ExecutionLedger *)

Lemma record_execution_records (now : Clock) (e : AgentExecution) (s : State)
    (b : string) :
  execution_records (record_execution now e s) !! b =
  if decide (agent_id e = b)
  then Some (history s b ++ [execution_data now e])
  else execution_records s !! b.
Proof.
  unfold record_execution. rewrite update_agent_averages_records. simpl.
  unfold history. destruct (decide (agent_id e = b)) as [<-|Hne].
  - rewrite lookup_alter_eq.
    destruct (execution_records s !! agent_id e) as [l|] eqn:E.
    + rewrite E. reflexivity.
    + rewrite lookup_insert_eq. reflexivity.
  - rewrite lookup_alter_ne by assumption.
    destruct (execution_records s !! agent_id e); [reflexivity|].
    apply lookup_insert_ne, Hne.
Qed.

Lemma record_execution_history (now : Clock) (e : AgentExecution)
    (s : State) :
  history (record_execution now e s) (agent_id e) =
  history s (agent_id e) ++ [execution_data now e].
Proof.
  unfold history at 1. rewrite record_execution_records.
  rewrite decide_True by reflexivity. reflexivity.
Qed.

Lemma record_execution_history_ne (now : Clock) (e : AgentExecution)
    (s : State) (b : string) :
  agent_id e <> b -> history (record_execution now e s) b = history s b.
Proof.
  intros Hne. unfold history at 1. rewrite record_execution_records.
  rewrite decide_False by assumption. reflexivity.
Qed.

Lemma record_execution_get (now : Clock) (e : AgentExecution) (s : State) :
  dict_get (agent_id e) (agent_metadata (record_execution now e s)) =
  Some (recomputed (history s (agent_id e) ++ [execution_data now e])
          (default (default_metadata (agent_id e))
                   (dict_get (agent_id e) (agent_metadata s)))).
Proof.
  pose proof (record_execution_history now e s) as Hh.
  unfold record_execution in *. rewrite update_agent_averages_get.
  rewrite update_agent_averages_history in Hh. rewrite Hh. simpl.
  unfold dict_in.
  destruct (dict_get (agent_id e) (agent_metadata s)) as [m|] eqn:E.
  - rewrite E. reflexivity.
  - rewrite dict_get_set_eq. reflexivity.
Qed.

Lemma record_execution_get_ne (now : Clock) (e : AgentExecution) (s : State)
    (b : string) :
  agent_id e <> b ->
  dict_get b (agent_metadata (record_execution now e s)) =
  dict_get b (agent_metadata s).
Proof.
  intros Hne. unfold record_execution.
  rewrite update_agent_averages_get_ne by assumption. simpl.
  destruct (dict_in (agent_id e) (agent_metadata s)); [reflexivity|].
  apply dict_get_set_ne, Hne.
Qed.

Lemma record_execution_keys (now : Clock) (e : AgentExecution) (s : State) :
  dict_keys (agent_metadata (record_execution now e s)) =
  if dict_in (agent_id e) (agent_metadata s)
  then dict_keys (agent_metadata s)
  else dict_keys (agent_metadata s) ++ [agent_id e].
Proof.
  unfold record_execution. rewrite update_agent_averages_keys. simpl.
  destruct (dict_in (agent_id e) (agent_metadata s)) eqn:E; [reflexivity|].
  rewrite dict_keys_set, E. reflexivity.
Qed.

(** ** AgentRegistry: register and delete *)

Lemma metadata_eta (m : AgentMetadata) :
  {| id := id m; description := description m;
     avg_cost := avg_cost m; avg_latency := avg_latency m |} = m.
Proof. destruct m; reflexivity. Qed.

Lemma register_agent_records (m : AgentMetadata) (s : State) :
  execution_records (register_agent m s).2 = execution_records s.
Proof.
  unfold register_agent; simpl. rewrite update_agent_averages_records.
  reflexivity.
Qed.

Lemma register_agent_get (m : AgentMetadata) (s : State) :
  dict_get (id m) (agent_metadata (register_agent m s).2) =
  Some (recomputed (history s (id m)) m).
Proof.
  unfold register_agent; simpl. rewrite update_agent_averages_get. simpl.
  rewrite dict_get_set_eq, metadata_eta. reflexivity.
Qed.

Lemma register_agent_get_ne (m : AgentMetadata) (s : State) (b : string) :
  id m <> b ->
  dict_get b (agent_metadata (register_agent m s).2) =
  dict_get b (agent_metadata s).
Proof.
  intros Hne. unfold register_agent; simpl.
  rewrite update_agent_averages_get_ne by assumption. simpl.
  apply dict_get_set_ne, Hne.
Qed.

Lemma register_agent_keys (m : AgentMetadata) (s : State) :
  dict_keys (agent_metadata (register_agent m s).2) =
  if dict_in (id m) (agent_metadata s)
  then dict_keys (agent_metadata s)
  else dict_keys (agent_metadata s) ++ [id m].
Proof.
  unfold register_agent; simpl. rewrite update_agent_averages_keys. simpl.
  apply dict_keys_set.
Qed.

Lemma delete_agent_absent (a : string) (s : State) :
  dict_in a (agent_metadata s) = false ->
  delete_agent a s =
  (Raise (HTTPException 404 ("Agent " +:+ a +:+ " not found in inventory")),
   s).
Proof. intros H. unfold delete_agent. rewrite H. reflexivity. Qed.

Lemma delete_agent_present (a : string) (s : State) :
  dict_in a (agent_metadata s) = true ->
  delete_agent a s =
  (Ret {| st_status := "success";
          st_message := "Agent " +:+ a +:+ " and all its records deleted" |},
   {| agent_metadata := dict_del a (agent_metadata s);
      execution_records := delete a (execution_records s) |}).
Proof.
  intros H. unfold delete_agent. rewrite H. simpl.
  destruct (execution_records s !! a) eqn:E; [reflexivity|].
  rewrite delete_id by assumption. reflexivity.
Qed.

(** ** The listing loop *)

Lemma dict_get_middle {V : Type} (k : string) (v : V) (d1 d2 : dict V) :
  k ∉ dict_keys d1 -> dict_get k (d1 ++ (k, v) :: d2) = Some v.
Proof.
  unfold dict_keys. induction d1 as [|[k' v'] d1 IH]; simpl; intros Hk.
  - rewrite decide_True; reflexivity.
  - rewrite not_elem_of_cons in Hk. destruct Hk as [Hne Hk].
    rewrite decide_False by congruence. apply IH, Hk.
Qed.

Lemma list_loop_spec (items : list (string * AgentMetadata)) :
  forall (s : State) (acc : list AgentMetadata)
         (done : list (string * AgentMetadata)),
    agent_metadata s = done ++ items ->
    NoDup (dict_keys (done ++ items)) ->
    list_loop items s acc =
    (acc ++ (recompute_entry (execution_records s) <$> items).*2,
     {| agent_metadata :=
          done ++ (recompute_entry (execution_records s) <$> items);
        execution_records := execution_records s |}).
Proof.
  induction items as [|[k m] items IH]; intros s acc done Hmd Hnd.
  - simpl. rewrite app_nil_r in Hmd. rewrite !app_nil_r, <- Hmd.
    destruct s; reflexivity.
  - assert (Hk : k ∉ dict_keys done).
    { unfold dict_keys in *. rewrite fmap_app in Hnd.
      apply NoDup_app in Hnd. destruct Hnd as (_ & Hdisj & _).
      intros Hin. apply (Hdisj k Hin). simpl. left. }
    simpl list_loop.
    set (s1 := update_agent_averages k s).
    assert (Hs1 : s1 =
      {| agent_metadata :=
           (done ++ [(k, recomputed (history s k) m)]) ++ items;
         execution_records := execution_records s |}).
    { unfold s1. rewrite update_agent_averages_alter, Hmd.
      rewrite dict_alter_middle by assumption.
      rewrite <- app_assoc. reflexivity. }
    assert (Hget : dict_get k (agent_metadata s1) =
                   Some (recomputed (history s k) m)).
    { rewrite Hs1. simpl. rewrite <- app_assoc. simpl.
      apply dict_get_middle, Hk. }
    rewrite Hget. simpl default. rewrite metadata_eta.
    rewrite (IH s1 _ (done ++ [(k, recomputed (history s k) m)])).
    + rewrite Hs1. simpl. rewrite <- !app_assoc. reflexivity.
    + rewrite Hs1. reflexivity.
    + unfold dict_keys in *. rewrite <- app_assoc. simpl.
      rewrite !fmap_app in *. simpl in *. exact Hnd.
Qed.

Lemma list_local_agents_spec (s : State) :
  NoDup (dict_keys (agent_metadata s)) ->
  list_local_agents s =
  (Ret (merge_sort by_id (recompute_all s).*2),
   {| agent_metadata := recompute_all s;
      execution_records := execution_records s |}).
Proof.
  intros Hnd. unfold list_local_agents.
  rewrite (list_loop_spec (agent_metadata s) s [] []); [reflexivity..|].
  exact Hnd.
Qed.

Lemma recompute_all_keys (s : State) :
  dict_keys (recompute_all s) = dict_keys (agent_metadata s).
Proof.
  unfold recompute_all, dict_keys. rewrite <- list_fmap_compose.
  apply list_fmap_ext. intros i [k m] _. reflexivity.
Qed.

Lemma recompute_all_get (s : State) (a : string) :
  dict_get a (recompute_all s) =
  recomputed (history s a) <$> dict_get a (agent_metadata s).
Proof.
  unfold recompute_all, history.
  induction (agent_metadata s) as [|[k m] d IH]; simpl; [reflexivity|].
  destruct (decide (k = a)) as [->|Hne]; [reflexivity | exact IH].
Qed.

(** ** The invariant *)

Lemma recomputed_idempotent (records : list ExecutionData)
    (m : AgentMetadata) :
  recomputed records (recomputed records m) = recomputed records m.
Proof.
  unfold recomputed.
  destruct (omap rec_cost_usd records), (omap rec_runtime_ms records);
    reflexivity.
Qed.


Lemma initial_consistent : consistent initial.
Proof.
  split; [split|..]; simpl.
  - apply NoDup_nil_2.
  - discriminate.
  - intros a recs H. rewrite lookup_empty in H. discriminate.
  - intros a recs H. rewrite lookup_empty in H. discriminate.
  - discriminate.
Qed.


Lemma consistent_recompute_all (s : State) :
  consistent s -> recompute_all s = agent_metadata s.
Proof.
  intros Hc. unfold recompute_all.
  rewrite <- (list_fmap_id (agent_metadata s)) at 2.
  apply list_fmap_ext. intros i [k m] Hi. unfold recompute_entry; simpl.
  f_equal. apply (cons_current s Hc).
  apply dict_get_elem_of; [apply (wf_keys s (cons_wf s Hc))|].
  apply list_elem_of_lookup. eauto.
Qed.

Lemma record_execution_consistent (now : Clock) (e : AgentExecution)
    (s : State) :
  consistent s -> consistent (record_execution now e s).
Proof.
  intros [[Hk Hi] Hne Hreg Hcur].
  assert (Hget := record_execution_get now e s).
  assert (Hget' := record_execution_get_ne now e s).
  assert (Hrec := record_execution_records now e s).
  assert (Hh := record_execution_history now e s).
  assert (Hh' := record_execution_history_ne now e s).
  set (s' := record_execution now e s) in *. set (a := agent_id e) in *.
  split; [split|..].
  - unfold s'. rewrite record_execution_keys. fold a.
    destruct (dict_in a (agent_metadata s)) eqn:E; [exact Hk|].
    apply NoDup_app. split; [exact Hk|]. split; [|apply NoDup_singleton].
    intros x Hx Hin. apply list_elem_of_singleton in Hin. subst x.
    apply dict_in_keys in Hx. congruence.
  - intros k m Hm. destruct (decide (a = k)) as [<-|Hak].
    + rewrite Hget in Hm. injection Hm as <-.
      rewrite (proj1 (recomputed_id _ _)).
      destruct (dict_get a (agent_metadata s)) eqn:E; simpl; eauto.
    + rewrite Hget' in Hm by assumption. eauto.
  - intros b recs Hb. rewrite Hrec in Hb. fold a in Hb.
    destruct (decide (a = b)).
    + injection Hb as <-. intros H. apply app_eq_nil in H.
      destruct H; discriminate.
    + eauto.
  - intros b recs Hb. unfold registered. rewrite Hrec in Hb. fold a in Hb.
    destruct (decide (a = b)) as [<-|Hab].
    + apply dict_in_true. rewrite Hget. eauto.
    + apply dict_in_true. rewrite Hget' by assumption.
      apply dict_in_true. eapply Hreg, Hb.
  - intros b m Hm. destruct (decide (a = b)) as [<-|Hab].
    + rewrite Hget in Hm. injection Hm as <-. rewrite Hh.
      apply recomputed_idempotent.
    + rewrite Hget' in Hm by assumption. rewrite Hh' by assumption. eauto.
Qed.

Lemma register_agent_consistent (m : AgentMetadata) (s : State) :
  consistent s -> consistent (register_agent m s).2.
Proof.
  intros [[Hk Hi] Hne Hreg Hcur].
  assert (Hget := register_agent_get m s).
  assert (Hget' := register_agent_get_ne m s).
  assert (Hrec := register_agent_records m s).
  assert (Hkeys := register_agent_keys m s).
  set (s' := (register_agent m s).2) in *. set (a := id m) in *.
  assert (Hh : forall b, history s' b = history s b)
    by (intros b; unfold history; rewrite Hrec; reflexivity).
  split; [split|..].
  - rewrite Hkeys.
    destruct (dict_in a (agent_metadata s)) eqn:E; [exact Hk|].
    apply NoDup_app. split; [exact Hk|]. split; [|apply NoDup_singleton].
    intros x Hx Hin. apply list_elem_of_singleton in Hin. subst x.
    apply dict_in_keys in Hx. congruence.
  - intros k m' Hm. destruct (decide (a = k)) as [<-|Hak].
    + rewrite Hget in Hm. injection Hm as <-.
      apply (proj1 (recomputed_id _ _)).
    + rewrite Hget' in Hm by assumption. eauto.
  - intros b recs Hb. rewrite Hrec in Hb. eauto.
  - intros b recs Hb. unfold registered. rewrite Hrec in Hb.
    apply dict_in_true. destruct (decide (a = b)) as [<-|Hab].
    + rewrite Hget. eauto.
    + rewrite Hget' by assumption. apply dict_in_true. eapply Hreg, Hb.
  - intros b m' Hm. rewrite Hh. destruct (decide (a = b)) as [<-|Hab].
    + rewrite Hget in Hm. injection Hm as <-. apply recomputed_idempotent.
    + rewrite Hget' in Hm by assumption. eauto.
Qed.

Lemma delete_agent_consistent (a : string) (s : State) :
  consistent s -> consistent (delete_agent a s).2.
Proof.
  intros Hc. destruct (dict_in a (agent_metadata s)) eqn:E.
  2:{ rewrite delete_agent_absent by assumption. exact Hc. }
  rewrite delete_agent_present by assumption. simpl.
  destruct Hc as [[Hk Hi] Hne Hreg Hcur].
  assert (Hg : forall k m, dict_get k (dict_del a (agent_metadata s)) = Some m
                 -> a <> k /\ dict_get k (agent_metadata s) = Some m).
  { intros k m Hm. destruct (decide (a = k)) as [<-|Hak].
    - rewrite dict_get_del_eq in Hm. discriminate.
    - rewrite dict_get_del_ne in Hm by assumption. eauto. }
  split; [split|..]; simpl.
  - rewrite dict_keys_del. apply NoDup_filter, Hk.
  - intros k m Hm. apply Hg in Hm. destruct Hm. eauto.
  - intros b recs Hb. apply lookup_delete_Some in Hb. destruct Hb. eauto.
  - intros b recs Hb. apply lookup_delete_Some in Hb. destruct Hb as [Hab Hb].
    unfold registered; simpl. apply dict_in_true.
    rewrite dict_get_del_ne by assumption. apply dict_in_true.
    eapply Hreg, Hb.
  - intros b m Hm. apply Hg in Hm. destruct Hm as [Hab Hm].
    unfold history; simpl. rewrite lookup_delete_ne by assumption.
    apply Hcur, Hm.
Qed.

Lemma list_local_agents_consistent (s : State) :
  consistent s -> (list_local_agents s).2 = s.
Proof.
  intros Hc. rewrite list_local_agents_spec
    by apply (wf_keys s (cons_wf s Hc)).
  simpl. rewrite consistent_recompute_all by assumption.
  destruct s; reflexivity.
Qed.

Lemma step_consistent (o : op) (s : State) :
  consistent s -> consistent (step o s).
Proof.
  intros Hc. destruct o; simpl.
  - apply record_execution_consistent, Hc.
  - apply register_agent_consistent, Hc.
  - exact Hc.
  - rewrite list_local_agents_consistent; assumption.
  - apply delete_agent_consistent, Hc.
Qed.

Lemma run_consistent (ops : list op) (s : State) :
  consistent s -> consistent (run ops s).
Proof.
  revert s. induction ops as [|o ops IH]; intros s Hc; simpl; [exact Hc|].
  apply IH, step_consistent, Hc.
Qed.

Lemma reachable_consistent (s : State) : reachable s -> consistent s.
Proof. intros [ops ->]. apply run_consistent, initial_consistent. Qed.

(** ** Running averages *)

Lemma run_app (ops1 ops2 : list op) (s : State) :
  run (ops1 ++ ops2) s = run ops2 (run ops1 s).
Proof. unfold run. apply fold_left_app. Qed.






(** ** Usage statistics *)

Lemma py_bind_ret {A B : Type} (x : A) (f : A -> py B) : Ret x ≫= f = f x.
Proof. reflexivity. Qed.






(** Three executions with runtimes 100, 200 and 300 ms: the median is 200
    and the 95th percentile 290. *)
Example usage_three_runs :
  (get_agent_usage_internal "a1" sample_state).1 =
  Ret {| total_runs := 3; failures := 0;
         avg_input_tokens := 0; avg_output_tokens := 0;
         p50_latency_ms := 200; p95_latency_ms := 290 |}.
Proof. vm_compute. reflexivity. Qed.



(** C10. The success response of [record_execution] carries the caller's
    [execution_id] unchanged.  When the caller supplied none, the response
    carries none either, although the record appended to the ledger holds
    the synthesized identifier (agent id, underscore, timestamp). *)
Theorem C10_response_execution_id (now : Clock) (e : AgentExecution)
    (s : State) :
  let s' := (record_agent_execution now e s).2 in
  (exists message,
     (record_agent_execution now e s).1 =
     Ret {| rr_status := "success"; rr_message := message;
            rr_execution_id := execution_id e |}) /\
  last (history s' (agent_id e)) = Some (execution_data now e) /\
  (execution_id e = None ->
   (exists message,
      (record_agent_execution now e s).1 =
      Ret {| rr_status := "success"; rr_message := message;
             rr_execution_id := None |}) /\
   rec_execution_id (execution_data now e) =
   agent_id e +:+ "_" +:+ now_timestamp now).
Proof.
  intros s'. split; [|split].
  - eexists. reflexivity.
  - unfold s', record_agent_execution; simpl.
    rewrite record_execution_history. apply last_snoc.
  - intros Hnone. split.
    + eexists. unfold record_agent_execution; simpl. rewrite Hnone.
      reflexivity.
    + unfold execution_data; simpl. rewrite Hnone. reflexivity.
Qed.

Lemma C10_response_execution_id_witness :
  rec_execution_id
    (execution_data sample_clock (sample_execution "a1" None None)) =
  "a1_1730000000.5".
Proof.
  apply (proj2 (proj2 (C10_response_execution_id sample_clock
                         (sample_execution "a1" None None) initial))).
  reflexivity.
Defined.

(** ** Deleting an agent *)

Lemma list_local_agents_ids (s : State) (x : AgentMetadata)
    (agents : list AgentMetadata) :
  consistent s ->
  (list_local_agents s).1 = Ret agents -> x ∈ agents -> registered s (id x).
Proof.
  intros Hc Hl Hx.
  rewrite list_local_agents_spec in Hl by apply (wf_keys s (cons_wf s Hc)).
  simpl in Hl. injection Hl as <-.
  rewrite merge_sort_Permutation in Hx.
  rewrite consistent_recompute_all in Hx by assumption.
  apply list_elem_of_fmap in Hx. destruct Hx as ([k m] & -> & Hin). simpl.
  apply dict_get_elem_of in Hin; [|apply (wf_keys s (cons_wf s Hc))].
  rewrite (wf_ids s (cons_wf s Hc) k m Hin).
  apply dict_in_true. eauto.
Qed.

(** C5. [delete_agent] on an identifier absent from the registry fails with
    status 404 and leaves both stores unchanged.  Otherwise it succeeds and
    removes the identifier from the registry and from the ledger together,
    leaving every other agent's entries alone: afterwards the agent is in
    neither store, no entry of [list_agents] carries its id, and a usage
    query for it fails with status 404. *)
Theorem C5_delete_agent (s : State) (a : string) :
  reachable s ->
  (dict_in a (agent_metadata s) = false ->
   exists detail,
     delete_agent a s = (Raise (HTTPException 404 detail), s)) /\
  (dict_in a (agent_metadata s) = true ->
   exists response s',
     delete_agent a s = (Ret response, s') /\
     dict_get a (agent_metadata s') = None /\
     execution_records s' !! a = None /\
     (forall b, b <> a ->
        dict_get b (agent_metadata s') = dict_get b (agent_metadata s) /\
        execution_records s' !! b = execution_records s !! b) /\
     (exists agents,
        (list_agents s').1 = Ret agents /\
        forall x, x ∈ agents -> id x <> a) /\
     (exists detail,
        (get_agent_usage_internal a s').1 =
        Raise (HTTPException 404 detail))).
Proof.
  intros Hreach. apply reachable_consistent in Hreach. split.
  - intros Habs. eexists. apply delete_agent_absent, Habs.
  - intros Hin.
    pose proof (delete_agent_consistent a s Hreach) as Hc'.
    rewrite delete_agent_present in Hc' by assumption. simpl in Hc'.
    do 2 eexists. split; [apply delete_agent_present, Hin|].
    simpl. split; [apply dict_get_del_eq|].
    split; [apply lookup_delete_eq|]. split; [|split].
    + intros b Hb. split.
      * apply dict_get_del_ne. congruence.
      * apply lookup_delete_ne. congruence.
    + unfold list_agents.
      match goal with
      | |- context [list_local_agents ?st] =>
        set (s' := st) in *;
        destruct (list_local_agents s') as [[agents|e] s''] eqn:El
      end.
      2:{ rewrite list_local_agents_spec in El
            by apply (wf_keys s' (cons_wf s' Hc')). discriminate. }
      exists agents. split; [reflexivity|]. intros x Hx Hid.
      assert (Hr : registered s' (id x)).
      { eapply list_local_agents_ids; [exact Hc' | | exact Hx].
        rewrite El. reflexivity. }
      rewrite Hid in Hr. unfold registered, s' in Hr. simpl in Hr.
      apply dict_in_true in Hr. rewrite dict_get_del_eq in Hr.
      destruct Hr; discriminate.
    + eexists. unfold get_agent_usage_internal, get_agent_usage_body.
      simpl. unfold dict_in. rewrite dict_get_del_eq. reflexivity.
Qed.

Lemma C5_delete_agent_witness :
  reachable sample_state /\
  dict_in "a1" (agent_metadata sample_state) = true /\
  exists response s',
    delete_agent "a1" sample_state = (Ret response, s') /\
    dict_get "a1" (agent_metadata s') = None /\
    execution_records s' !! "a1" = None.
Proof.
  assert (Hr : reachable sample_state)
    by (exists (record_ops sample_calls); reflexivity).
  assert (Hin : dict_in "a1" (agent_metadata sample_state) = true)
    by reflexivity.
  split; [exact Hr|]. split; [exact Hin|].
  destruct (proj2 (C5_delete_agent sample_state "a1" Hr) Hin)
    as (response & s' & Hdel & Hmd & Her & _).
  exists response, s'. split; [exact Hdel|]. split; assumption.
Defined.

(** ** Stored averages in consistent states *)






(** ** Re-registration *)




(** ** Lifecycle of registry entries *)

Lemma C9_counterexample :
  ~ (forall (ops : list op) (a : string),
       registered (run ops initial) a <-> ever_created a ops).
Proof.
  intros H.
  assert (Hc : ever_created "a" [RegisterAgent bare_metadata; DeleteAgent "a"]).
  { exists (RegisterAgent bare_metadata). split; [left | reflexivity]. }
  apply H in Hc. vm_compute in Hc. discriminate.
Qed.

Lemma step_registered (o : op) (s : State) (a : string) :
  consistent s ->
  dict_in a (agent_metadata (step o s)) =
  live_step a o (dict_in a (agent_metadata s)).
Proof.
  intros Hc. destruct o as [now e|m|a'| |a']; unfold step, live_step.
  - change (record_agent_execution now e s).2 with (record_execution now e s).
    destruct (decide (agent_id e = a)) as [<-|Hne].
    + apply dict_in_true. rewrite record_execution_get. eauto.
    + unfold dict_in. rewrite record_execution_get_ne by assumption.
      reflexivity.
  - destruct (decide (id m = a)) as [<-|Hne].
    + apply dict_in_true. rewrite register_agent_get. eauto.
    + unfold dict_in. rewrite register_agent_get_ne by assumption.
      reflexivity.
  - reflexivity.
  - rewrite list_local_agents_consistent by assumption. reflexivity.
  - destruct (dict_in a' (agent_metadata s)) eqn:E.
    + rewrite delete_agent_present by assumption. simpl. unfold dict_in.
      destruct (decide (a' = a)) as [<-|Hne].
      * rewrite dict_get_del_eq. reflexivity.
      * rewrite dict_get_del_ne by assumption. reflexivity.
    + rewrite delete_agent_absent by assumption. simpl.
      destruct (decide (a' = a)) as [<-|Hne]; [exact E | reflexivity].
Qed.

Lemma run_snoc (ops : list op) (o : op) (s : State) :
  run (ops ++ [o]) s = step o (run ops s).
Proof. rewrite run_app. reflexivity. Qed.

Lemma live_snoc (a : string) (ops : list op) (o : op) :
  live a (ops ++ [o]) = live_step a o (live a ops).
Proof. unfold live. rewrite fold_left_app. reflexivity. Qed.

Lemma run_registered (ops : list op) (a : string) :
  dict_in a (agent_metadata (run ops initial)) = live a ops.
Proof.
  induction ops as [|o ops IH] using rev_ind; [reflexivity|].
  rewrite run_snoc, live_snoc, <- IH.
  apply step_registered, run_consistent, initial_consistent.
Qed.

Lemma live_ever_created (a : string) (ops : list op) :
  live a ops = true -> ever_created a ops.
Proof.
  induction ops as [|o ops IH] using rev_ind; [discriminate|].
  rewrite live_snoc. intros H.
  assert (Hcases : creates a o \/ live a ops = true).
  { destruct o as [now e|m|a'| |a']; simpl in *; try (right; exact H).
    - destruct (decide (agent_id e = a)); [left | right]; assumption.
    - destruct (decide (id m = a)); [left | right]; assumption.
    - destruct (decide (a' = a)); [discriminate | right; assumption]. }
  destruct Hcases as [Hcr|Hl].
  - exists o. split; [|exact Hcr]. apply elem_of_app. right. left.
  - destruct (IH Hl) as (o' & Hin & Hcr). exists o'. split; [|exact Hcr].
    apply elem_of_app. left. exact Hin.
Qed.

(** C9 (amended). In every state reached from the empty stores by a trace
    of [record_execution], [register_agent], usage-query, [list_agents] and
    [delete_agent] operations, an identifier is in the registry if and only
    if it was registered, or an execution was recorded for it, since its
    last [delete_agent] (or at all, when it was never deleted); such an
    identifier was therefore created at some point of the trace.  Every
    identifier with a ledger entry is in the registry, and no ledger entry
    is empty. *)
Theorem C9_registry_lifecycle (ops : list op) (a : string) :
  let s := run ops initial in
  (registered s a <-> live a ops = true) /\
  (registered s a -> ever_created a ops) /\
  (forall recs, execution_records s !! a = Some recs ->
                recs <> [] /\ registered s a) /\
  (history s a <> [] -> registered s a).
Proof.
  intros s.
  assert (Hc : consistent s) by apply run_consistent, initial_consistent.
  assert (Hl : dict_in a (agent_metadata s) = live a ops)
    by apply run_registered.
  split; [|split; [|split]].
  - unfold registered. rewrite Hl. reflexivity.
  - unfold registered. rewrite Hl. apply live_ever_created.
  - intros recs Hr. split.
    + apply (cons_nonempty s Hc a recs Hr).
    + apply (cons_registered s Hc a recs Hr).
  - intros Hh. unfold history in Hh.
    destruct (execution_records s !! a) as [recs|] eqn:E; [|contradiction].
    apply (cons_registered s Hc a recs E).
Qed.

Lemma C9_registry_lifecycle_witness :
  registered (run (record_ops sample_calls) initial) "a1".
Proof.
  apply (proj2 (proj2 (proj2
    (C9_registry_lifecycle (record_ops sample_calls) "a1")))).
  vm_compute. discriminate.
Defined.

(** ** Listing the agents *)

Global Instance by_id_trans : Transitive by_id.
Proof. intros x y z. unfold by_id. apply transitivity. Qed.

Global Instance by_id_total : Total by_id.
Proof. intros x y. unfold by_id. apply total, _. Qed.

Global Instance by_id_strict_trans : Transitive by_id_strict.
Proof. intros x y z. unfold by_id_strict. apply transitivity. Qed.

Global Instance by_id_strict_antisym : AntiSymm (=) by_id_strict.
Proof.
  intros x y [H1 H2] [H3 H4]. contradiction.
Qed.

Lemma by_id_strict_intro (x y : AgentMetadata) :
  by_id x y -> id x <> id y -> by_id_strict x y.
Proof.
  unfold by_id, by_id_strict. intros Hle Hne. split; [exact Hle|].
  intros Hge. apply Hne. apply (anti_symm String.le); assumption.
Qed.

Lemma StronglySorted_by_id_strict (l : list AgentMetadata) :
  StronglySorted by_id l -> NoDup (id <$> l) -> StronglySorted by_id_strict l.
Proof.
  induction 1 as [|x l Hl IH Hx]; intros Hnd; [constructor|].
  rewrite fmap_cons in Hnd. apply NoDup_cons in Hnd.
  destruct Hnd as [Hnotin Hnd]. constructor; [apply IH, Hnd|].
  rewrite Forall_forall in Hx |- *. intros y Hy.
  apply by_id_strict_intro; [apply Hx, Hy|].
  intros E. apply Hnotin. rewrite E. apply list_elem_of_fmap_2, Hy.
Qed.

Lemma merge_sort_by_id_strict (l : list AgentMetadata) :
  NoDup (id <$> l) -> Sorted by_id_strict (merge_sort by_id l).
Proof.
  intros Hnd. apply StronglySorted_Sorted, StronglySorted_by_id_strict.
  - apply StronglySorted_merge_sort; apply _.
  - rewrite merge_sort_Permutation. exact Hnd.
Qed.

(** Sorting by identifier forgets the order of unique-key inputs. *)
Lemma merge_sort_by_id_unique (l1 l2 : list AgentMetadata) :
  l1 ≡ₚ l2 -> NoDup (id <$> l1) ->
  merge_sort by_id l1 = merge_sort by_id l2.
Proof.
  intros Hp Hnd. apply (Sorted_unique by_id_strict).
  - apply merge_sort_by_id_strict, Hnd.
  - apply merge_sort_by_id_strict. rewrite <- Hp. exact Hnd.
  - rewrite !merge_sort_Permutation. exact Hp.
Qed.

Lemma recompute_all_ids (s : State) :
  well_formed s ->
  id <$> (recompute_all s).*2 = dict_keys (agent_metadata s).
Proof.
  intros [Hk Hi]. unfold recompute_all, dict_keys.
  rewrite <- !list_fmap_compose. apply list_fmap_ext.
  intros i [k m] Hkm. simpl. rewrite (proj1 (recomputed_id _ _)).
  apply Hi. apply dict_get_elem_of; [exact Hk|].
  apply list_elem_of_lookup. eauto.
Qed.

Lemma reachable_well_formed (s : State) : reachable s -> well_formed s.
Proof. intros H. apply cons_wf, reachable_consistent, H. Qed.

(** C8. On well-formed stores (in particular in every reachable state)
    [list_agents] succeeds; it leaves the ledger and the set and order of
    registry keys as they were, and every registry entry as a recompute of
    that agent's averages leaves it; it returns exactly the metadata objects
    of the registry after that recompute, one per registered identifier,
    in strictly ascending order of identifier.  The result does not depend
    on the order in which the agents were inserted. *)
Theorem C8_list_agents (s : State) :
  well_formed s ->
  let s' := (list_agents s).2 in
  exists agents,
    (list_agents s).1 = Ret agents /\
    execution_records s' = execution_records s /\
    dict_keys (agent_metadata s') = dict_keys (agent_metadata s) /\
    (forall a, dict_get a (agent_metadata s') =
               dict_get a (agent_metadata (update_agent_averages a s))) /\
    agents ≡ₚ (agent_metadata s').*2 /\
    id <$> agents ≡ₚ dict_keys (agent_metadata s) /\
    Sorted by_id agents /\
    Sorted (strict String.le) (id <$> agents) /\
    (forall s2,
       agent_metadata s2 ≡ₚ agent_metadata s ->
       execution_records s2 = execution_records s ->
       (list_agents s2).1 = Ret agents).
Proof.
  intros Hwf s'. pose proof (wf_keys s Hwf) as Hk.
  assert (Hids : NoDup (id <$> (recompute_all s).*2))
    by (rewrite recompute_all_ids by assumption; exact Hk).
  unfold s', list_agents. rewrite list_local_agents_spec by assumption.
  simpl. eexists. split; [reflexivity|].
  split; [reflexivity|]. split; [apply recompute_all_keys|].
  split; [|split; [|split; [|split; [|split]]]].
  - intros a. rewrite recompute_all_get, update_agent_averages_get.
    reflexivity.
  - apply merge_sort_Permutation.
  - rewrite merge_sort_Permutation. rewrite recompute_all_ids by assumption.
    reflexivity.
  - apply Sorted_merge_sort, _.
  - apply (Sorted_fmap id by_id_strict); [intros x y H; exact H|].
    apply merge_sort_by_id_strict, Hids.
  - intros s2 Hperm Her.
    assert (Hk2 : NoDup (dict_keys (agent_metadata s2)))
      by (unfold dict_keys in *; rewrite Hperm; exact Hk).
    rewrite list_local_agents_spec by assumption. simpl. f_equal.
    apply merge_sort_by_id_unique.
    + unfold recompute_all. rewrite Her, Hperm. reflexivity.
    + unfold recompute_all. rewrite Her, Hperm. exact Hids.
Qed.

Lemma C8_list_agents_witness :
  well_formed unordered_state /\
  exists agents,
    (list_agents unordered_state).1 = Ret agents /\
    id <$> agents ≡ₚ ["zeta"; "alpha"] /\
    Sorted (strict String.le) (id <$> agents).
Proof.
  assert (Hwf : well_formed unordered_state).
  { apply reachable_well_formed. eexists. reflexivity. }
  split; [exact Hwf|].
  destruct (C8_list_agents unordered_state Hwf)
    as (agents & Hl & _ & _ & _ & _ & Hids & _ & Hs & _).
  exists agents. split; [exact Hl|]. split; [exact Hids | exact Hs].
Defined.

(** The listing of [unordered_state] starts with the agent registered
    last. *)
Example list_agents_unordered :
  (list_agents unordered_state).1 =
  Ret [ {| id := "alpha"; description := "first";
           avg_cost := Some 1%Q; avg_latency := None |};
        {| id := "zeta"; description := "last";
           avg_cost := None; avg_latency := None |} ].
Proof. vm_compute. reflexivity. Qed.

(** * Further properties of the service *)

(** ** The invariant over whole traces *)



(** ** The listing is a projection *)

Lemma recompute_entry_idempotent (er : gmap string (list ExecutionData))
    (km : string * AgentMetadata) :
  recompute_entry er (recompute_entry er km) = recompute_entry er km.
Proof.
  destruct km as [k m]. unfold recompute_entry; simpl.
  rewrite recomputed_idempotent. reflexivity.
Qed.

(** A second listing returns what the first returned and changes nothing;
    in a reachable state already the first one leaves the stores as they
    were. *)
Theorem list_agents_idempotent (s : State) :
  NoDup (dict_keys (agent_metadata s)) ->
  list_agents (list_agents s).2 = list_agents s /\
  (reachable s -> (list_agents s).2 = s).
Proof.
  intros Hnd. split.
  - unfold list_agents. rewrite (list_local_agents_spec s) by assumption.
    simpl. rewrite list_local_agents_spec; simpl.
    + unfold recompute_all at 1 3. simpl.
      assert (E : recompute_entry (execution_records s) <$> recompute_all s =
                  recompute_all s).
      { unfold recompute_all. rewrite <- list_fmap_compose.
        apply list_fmap_ext. intros i km _. simpl.
        apply recompute_entry_idempotent. }
      rewrite E. reflexivity.
    + rewrite recompute_all_keys. exact Hnd.
  - intros Hr. apply list_local_agents_consistent, reachable_consistent, Hr.
Qed.

Lemma list_agents_idempotent_witness :
  list_agents (list_agents unordered_state).2 = list_agents unordered_state.
Proof.
  apply (list_agents_idempotent unordered_state).
  apply (wf_keys unordered_state), reachable_well_formed.
  eexists. reflexivity.
Defined.

(** ** What an operation leaves alone *)

(** [record_execution] appends exactly one record to the history of the
    agent it names and creates its registry entry when there is none; every
    other agent keeps its registry entry and its ledger entry, and the
    registry keeps its order, a new agent going last. *)
Theorem record_execution_frame (now : Clock) (e : AgentExecution)
    (s : State) :
  let s' := record_execution now e s in
  history s' (agent_id e) = history s (agent_id e) ++ [execution_data now e] /\
  registered s' (agent_id e) /\
  (forall b, agent_id e <> b ->
     dict_get b (agent_metadata s') = dict_get b (agent_metadata s) /\
     execution_records s' !! b = execution_records s !! b) /\
  dict_keys (agent_metadata s') =
  (if dict_in (agent_id e) (agent_metadata s)
   then dict_keys (agent_metadata s)
   else dict_keys (agent_metadata s) ++ [agent_id e]).
Proof.
  intros s'. split; [apply record_execution_history|].
  split; [|split].
  - apply dict_in_true. unfold s'. rewrite record_execution_get. eauto.
  - intros b Hb. split; [apply record_execution_get_ne, Hb|].
    unfold s'. rewrite record_execution_records.
    rewrite decide_False by assumption. reflexivity.
  - apply record_execution_keys.
Qed.

Lemma record_execution_frame_witness :
  dict_get "a1"
    (agent_metadata
       (record_execution sample_clock (sample_execution "b2" None None)
          sample_state)) =
  dict_get "a1" (agent_metadata sample_state).
Proof.
  apply (proj1 (proj2 (proj2 (record_execution_frame sample_clock
           (sample_execution "b2" None None) sample_state)))).
  discriminate.
Defined.

(** ** The ledger is append-only *)

Lemma list_loop_records (items : list (string * AgentMetadata)) :
  forall (s : State) (acc : list AgentMetadata),
    execution_records (list_loop items s acc).2 = execution_records s.
Proof.
  induction items as [|[k m] items IH]; intros s acc; [reflexivity|].
  simpl list_loop. rewrite IH. apply update_agent_averages_records.
Qed.

Lemma list_local_agents_records (s : State) :
  execution_records (list_local_agents s).2 = execution_records s.
Proof.
  unfold list_local_agents.
  pose proof (list_loop_records (agent_metadata s) s []) as H.
  destruct (list_loop (agent_metadata s) s []) as [agents s']. exact H.
Qed.

Lemma delete_agent_records_ne (a b : string) (s : State) :
  a <> b ->
  execution_records (delete_agent a s).2 !! b = execution_records s !! b.
Proof.
  intros Hne. destruct (dict_in a (agent_metadata s)) eqn:E.
  - rewrite delete_agent_present by assumption. simpl.
    apply lookup_delete_ne, Hne.
  - rewrite delete_agent_absent by assumption. reflexivity.
Qed.

Lemma step_history_prefix (o : op) (s : State) (a : string) :
  o <> DeleteAgent a -> history s a `prefix_of` history (step o s) a.
Proof.
  intros Hdel. destruct o as [now e|m|a'| |a']; unfold step.
  - change (record_agent_execution now e s).2 with (record_execution now e s).
    destruct (decide (agent_id e = a)) as [<-|Hne].
    + rewrite record_execution_history. apply prefix_app_r. reflexivity.
    + rewrite record_execution_history_ne by assumption. reflexivity.
  - unfold history. rewrite register_agent_records. reflexivity.
  - reflexivity.
  - unfold history. rewrite list_local_agents_records. reflexivity.
  - assert (Hne : a' <> a) by congruence.
    unfold history. rewrite delete_agent_records_ne by assumption.
    reflexivity.
Qed.

(** As long as an agent is not deleted, no operation of the service removes,
    reorders or rewrites a record of its history: the history before a trace
    is a prefix of the history after it. *)
Theorem history_append_only (ops : list op) (s : State) (a : string) :
  (forall o, o ∈ ops -> o <> DeleteAgent a) ->
  history s a `prefix_of` history (run ops s) a.
Proof.
  revert s. induction ops as [|o ops IH]; intros s Hops; [reflexivity|].
  simpl. transitivity (history (step o s) a).
  - apply step_history_prefix, Hops. left.
  - apply IH. intros o' Ho'. apply Hops. right. exact Ho'.
Qed.

Lemma history_append_only_witness :
  history sample_state "a1" `prefix_of`
  history (run [ListAgents; DeleteAgent "b2";
                RecordExecution sample_clock
                  (sample_execution "a1" None None)] sample_state) "a1".
Proof.
  apply history_append_only. intros o Ho.
  repeat (apply elem_of_cons in Ho; destruct Ho as [->|Ho]);
    try discriminate.
  inversion Ho.
Defined.

(** ** Registration and the statistics *)

Lemma get_agent_usage_body_ext (a : string) (s1 s2 : State) :
  dict_in a (agent_metadata s1) = dict_in a (agent_metadata s2) ->
  execution_records s1 !! a = execution_records s2 !! a ->
  get_agent_usage_body a s1 = get_agent_usage_body a s2.
Proof.
  intros Hin Her. unfold get_agent_usage_body. rewrite Hin, Her.
  reflexivity.
Qed.

(** [register_agent] never touches the ledger nor another agent's entry,
    keeps the order of the registry (a new agent goes last), and stores the
    supplied identifier and description; the usage statistics of every
    agent that was registered before are what they were. *)
Theorem register_agent_frame (m : AgentMetadata) (s : State) :
  let s' := (register_agent m s).2 in
  execution_records s' = execution_records s /\
  (forall b, id m <> b ->
     dict_get b (agent_metadata s') = dict_get b (agent_metadata s)) /\
  dict_keys (agent_metadata s') =
  (if dict_in (id m) (agent_metadata s)
   then dict_keys (agent_metadata s)
   else dict_keys (agent_metadata s) ++ [id m]) /\
  (exists m', dict_get (id m) (agent_metadata s') = Some m' /\
              id m' = id m /\ description m' = description m) /\
  (forall a, registered s a ->
     (get_agent_usage_internal a s').1 = (get_agent_usage_internal a s).1).
Proof.
  intros s'. split; [apply register_agent_records|].
  split; [intros b Hb; apply register_agent_get_ne, Hb|].
  split; [apply register_agent_keys|]. split.
  - eexists. split; [apply register_agent_get|]. apply recomputed_id.
  - intros a Hreg. unfold get_agent_usage_internal; simpl. f_equal.
    apply get_agent_usage_body_ext.
    + unfold registered in Hreg. rewrite Hreg. apply dict_in_true.
      destruct (decide (id m = a)) as [<-|Hne].
      * unfold s'. rewrite register_agent_get. eauto.
      * unfold s'. rewrite register_agent_get_ne by assumption.
        apply dict_in_true, Hreg.
    + unfold s'. rewrite register_agent_records. reflexivity.
Qed.

Lemma register_agent_frame_witness :
  (get_agent_usage_internal "a1"
     (register_agent
        {| id := "a1"; description := "renamed";
           avg_cost := Some 7%Q; avg_latency := None |} sample_state).2).1 =
  (get_agent_usage_internal "a1" sample_state).1.
Proof.
  apply (proj2 (proj2 (proj2 (proj2 (register_agent_frame
           {| id := "a1"; description := "renamed";
              avg_cost := Some 7%Q; avg_latency := None |} sample_state))))).
  reflexivity.
Defined.



(** ** Deleting forgets the history *)

(** After a successful [delete_agent], the next execution recorded for the
    same identifier starts a history of one record, and the stored averages
    are computed from that record alone. *)
Theorem delete_then_record_fresh (now : Clock) (e : AgentExecution)
    (s : State) :
  registered s (agent_id e) ->
  let s1 := (delete_agent (agent_id e) s).2 in
  let s2 := record_execution now e s1 in
  history s2 (agent_id e) = [execution_data now e] /\
  dict_get (agent_id e) (agent_metadata s2) =
  Some (recomputed [execution_data now e] (default_metadata (agent_id e))) /\
  stored_avg_cost s2 (agent_id e) =
  (fun c => round (mean [c]) 6) <$> cost_usd e /\
  stored_avg_latency s2 (agent_id e) =
  (fun l => round (mean [l]) 2) <$> runtime_ms e.
Proof.
  intros Hreg s1 s2. unfold registered in Hreg.
  assert (Hh1 : history s1 (agent_id e) = []).
  { unfold s1, history. rewrite delete_agent_present by assumption. simpl.
    rewrite lookup_delete_eq. reflexivity. }
  assert (Hg1 : dict_get (agent_id e) (agent_metadata s1) = None).
  { unfold s1. rewrite delete_agent_present by assumption. simpl.
    apply dict_get_del_eq. }
  assert (Hh2 : history s2 (agent_id e) = [execution_data now e]).
  { unfold s2. rewrite record_execution_history, Hh1. reflexivity. }
  assert (Hg2 : dict_get (agent_id e) (agent_metadata s2) =
                Some (recomputed [execution_data now e]
                        (default_metadata (agent_id e)))).
  { unfold s2. rewrite record_execution_get, Hh1, Hg1. reflexivity. }
  split; [exact Hh2|]. split; [exact Hg2|].
  unfold stored_avg_cost, stored_avg_latency. rewrite Hg2. simpl.
  rewrite recomputed_avg_cost, recomputed_avg_latency. simpl.
  destruct (cost_usd e), (runtime_ms e); split; reflexivity.
Qed.

Lemma delete_then_record_fresh_witness :
  history
    (record_execution sample_clock (sample_execution "a1" None None)
       (delete_agent "a1" sample_state).2) "a1" =
  [execution_data sample_clock (sample_execution "a1" None None)].
Proof.
  apply (delete_then_record_fresh sample_clock
           (sample_execution "a1" None None) sample_state).
  reflexivity.
Defined.

(** ** Identifiers and timestamps of stored records *)

(** A non-empty [execution_id] or [timestamp] supplied by the caller is
    stored as it is; an empty string is treated like a missing value and
    replaced by the synthesized identifier or the ingestion time.  The other
    fields are stored as submitted. *)
Theorem execution_data_fields (now : Clock) (e : AgentExecution) :
  (forall x, execution_id e = Some x -> x <> EmptyString ->
             rec_execution_id (execution_data now e) = x) /\
  (execution_id e = Some EmptyString \/ execution_id e = None ->
   rec_execution_id (execution_data now e) =
   agent_id e +:+ "_" +:+ now_timestamp now) /\
  (forall x, timestamp e = Some x -> x <> EmptyString ->
             rec_timestamp (execution_data now e) = x) /\
  (timestamp e = Some EmptyString \/ timestamp e = None ->
   rec_timestamp (execution_data now e) = now_isoformat now) /\
  rec_success (execution_data now e) = success e /\
  rec_runtime_ms (execution_data now e) = runtime_ms e /\
  rec_cost_usd (execution_data now e) = cost_usd e /\
  rec_input_tokens (execution_data now e) = input_tokens e /\
  rec_output_tokens (execution_data now e) = output_tokens e.
Proof.
  unfold execution_data; simpl.
  split; [|split; [|split; [|split]]]; try (repeat split; reflexivity).
  - intros x -> Hx. destruct x; [contradiction | reflexivity].
  - intros [-> | ->]; reflexivity.
  - intros x -> Hx. destruct x; [contradiction | reflexivity].
  - intros [-> | ->]; reflexivity.
Qed.

Lemma execution_data_fields_witness :
  rec_execution_id
    (execution_data sample_clock
       {| agent_id := "a1"; execution_id := Some EmptyString;
          timestamp := None; success := false; runtime_ms := None;
          input_tokens := None; output_tokens := None; total_tokens := None;
          cost_usd := None; error_message := None |}) =
  "a1_1730000000.5".
Proof.
  apply (proj1 (proj2 (execution_data_fields sample_clock
           {| agent_id := "a1"; execution_id := Some EmptyString;
              timestamp := None; success := false; runtime_ms := None;
              input_tokens := None; output_tokens := None;
              total_tokens := None; cost_usd := None;
              error_message := None |}))).
  left. reflexivity.
Defined.

(** ** Order statistics *)

Lemma py_getitem_out_of_range {A : Type} (l : list A) (i : Z) :
  len l <= i -> py_getitem l i = Raise IndexError.
Proof.
  unfold len, py_getitem. intros Hi.
  replace (i <? 0) with false by (symmetry; apply Z.ltb_ge; lia).
  replace (i <? Z.of_nat (length l)) with false
    by (symmetry; apply Z.ltb_ge; lia).
  rewrite andb_false_r. reflexivity.
Qed.

Lemma StronglySorted_lookup_le (l : list Q) (i j : nat) (x y : Q) :
  StronglySorted Qle l -> (i <= j)%nat ->
  l !! i = Some x -> l !! j = Some y -> (x <= y)%Q.
Proof.
  intros Hs. revert i j. induction Hs as [|z l Hs IH Hz]; intros i j Hij Hi Hj.
  - discriminate.
  - destruct i as [|i], j as [|j]; simpl in *.
    + injection Hi as <-. injection Hj as <-. apply Qle_refl.
    + injection Hi as <-. rewrite Forall_forall in Hz. apply Hz.
      apply list_elem_of_lookup. eauto.
    + lia.
    + apply (IH i j); [lia | assumption..].
Qed.

Lemma sorted_StronglySorted (data : list Q) :
  StronglySorted Qle (sorted data).
Proof. apply StronglySorted_merge_sort; apply _. Qed.

Lemma sorted_elem_of (data : list Q) (x : Q) : x ∈ sorted data <-> x ∈ data.
Proof. unfold sorted. rewrite merge_sort_Permutation. reflexivity. Qed.





Lemma calculate_percentile_integer_rank (x : Q) (data : list Q) (p : Q)
    (k : Z) :
  (0 <= p)%Q -> (p <= 100)%Q ->
  (p / 100 * inject_Z (len (x :: data) - 1) == inject_Z k)%Q ->
  exists v, sorted (x :: data) !! Z.to_nat k = Some v /\
            calculate_percentile (x :: data) p = Ret v.
Proof.
  intros Hp0 Hp1 Hk.
  pose proof (calculate_percentile_cons x data p Hp0 Hp1) as H.
  cbv zeta in H.
  set (index := (p / 100 * inject_Z (len (x :: data) - 1))%Q) in *.
  assert (Ef : Qfloor index = k) by (rewrite Hk; apply Qfloor_Z).
  rewrite Ef in H.
  replace (Qeq_bool index (inject_Z k)) with true in H
    by (symmetry; apply Qeq_bool_iff, Hk).
  exact H.
Qed.

(** The percentiles 0 and 100 of a non-empty sample are its minimum and its
    maximum. *)
Theorem calculate_percentile_extremes (data : list Q) :
  data <> [] ->
  exists lo hi,
    calculate_percentile data 0 = Ret lo /\
    calculate_percentile data 100 = Ret hi /\
    lo ∈ data /\ hi ∈ data /\
    forall x, x ∈ data -> (lo <= x)%Q /\ (x <= hi)%Q.
Proof.
  intros Hne. destruct data as [|d data]; [congruence|].
  set (n := len (d :: data)).
  assert (Hn : 1 <= n) by (unfold n, len; simpl; lia).
  assert (Hlen : length (sorted (d :: data)) = Z.to_nat n).
  { rewrite sorted_length. unfold n, len. lia. }
  destruct (calculate_percentile_integer_rank d data 0 0) as (lo & Hlo & Hrlo).
  { unfold Qle; simpl; lia. } { unfold Qle; simpl; lia. }
  { unfold Qdiv. rewrite Qmult_0_l, Qmult_0_l. reflexivity. }
  destruct (calculate_percentile_integer_rank d data 100 (n - 1))
    as (hi & Hhi & Hrhi).
  { unfold Qle; simpl; lia. } { unfold Qle; simpl; lia. }
  { fold n. assert (E : (100 / 100 == 1)%Q) by reflexivity.
    rewrite E. apply Qmult_1_l. }
  exists lo, hi. split; [exact Hrlo|]. split; [exact Hrhi|].
  split; [apply sorted_elem_of, list_elem_of_lookup; eauto|].
  split; [apply sorted_elem_of, list_elem_of_lookup; eauto|].
  intros x Hx. apply sorted_elem_of, list_elem_of_lookup in Hx.
  destruct Hx as [j Hj].
  pose proof (lookup_lt_Some _ _ _ Hj) as Hjlt. rewrite Hlen in Hjlt.
  split.
  - eapply (StronglySorted_lookup_le _ _ _ _ _
              (sorted_StronglySorted (d :: data))); [|exact Hlo|exact Hj].
    simpl. lia.
  - eapply (StronglySorted_lookup_le _ _ _ _ _
              (sorted_StronglySorted (d :: data))); [|exact Hj|exact Hhi].
    lia.
Qed.

Lemma calculate_percentile_extremes_witness :
  exists lo hi,
    calculate_percentile [30; 10; 20]%Q 0 = Ret lo /\
    calculate_percentile [30; 10; 20]%Q 100 = Ret hi /\
    lo ∈ [30; 10; 20]%Q /\ hi ∈ [30; 10; 20]%Q.
Proof.
  destruct (calculate_percentile_extremes [30; 10; 20]%Q)
    as (lo & hi & H0 & H100 & Hlo & Hhi & _); [discriminate|].
  exists lo, hi. repeat split; assumption.
Defined.

(** A sample of one value has that value as every percentile, also outside
    [0, 100]; with two or more values a percentile above 100 raises
    [IndexError]. *)
Theorem calculate_percentile_out_of_range :
  (forall x p : Q, calculate_percentile [x] p = Ret x) /\
  (forall (data : list Q) (p : Q),
     (2 <= length data)%nat -> (100 < p)%Q ->
     calculate_percentile data p = Raise IndexError).
Proof.
  split.
  - intros x [pn pd]. unfold calculate_percentile.
    change (sorted [x]) with [x]. unfold is_integer, int, len. simpl.
    rewrite !Z.mul_0_r. reflexivity.
  - intros data p Hlen Hp. destruct data as [|d data]; [simpl in Hlen; lia|].
    unfold calculate_percentile.
    set (srt := sorted (d :: data)).
    assert (Hn : len srt = len (d :: data))
      by (unfold len, srt; rewrite sorted_length; reflexivity).
    assert (Hn2 : 2 <= len srt) by (rewrite Hn; unfold len; lia).
    set (m := len srt - 1) in *.
    set (index := (p / 100 * inject_Z m)%Q).
    assert (Hm : (1 <= inject_Z m)%Q).
    { change 1%Q with (inject_Z 1). rewrite <- Zle_Qle. unfold m. lia. }
    assert (Hq : (1 < p / 100)%Q).
    { apply Qlt_shift_div_l; [reflexivity|]. lra. }
    assert (Hidx : (inject_Z m < index)%Q) by (unfold index; nra).
    assert (H0 : (0 <= index)%Q) by lra.
    assert (Hfl : m <= Qfloor index).
    { rewrite <- (Qfloor_Z m). apply Qfloor_resp_le. lra. }
    rewrite (int_nonneg index H0).
    destruct (is_integer index) eqn:E.
    + apply is_integer_nonneg in E; [|exact H0].
      apply py_getitem_out_of_range.
      assert (m < Qfloor index); [|unfold m in *; lia].
      rewrite Zlt_Qlt, <- E. exact Hidx.
    + destruct (Z.eq_dec (Qfloor index) m) as [Em|Em].
      * destruct (py_getitem_in_range srt (Qfloor index)) as (lo & _ & Hg);
          [unfold m in *; lia|].
        rewrite Hg. rewrite py_bind_ret.
        rewrite py_getitem_out_of_range by (unfold m in *; lia).
        reflexivity.
      * rewrite (py_getitem_out_of_range srt (Qfloor index))
          by (unfold m in *; lia).
        reflexivity.
Qed.

Lemma calculate_percentile_out_of_range_witness :
  calculate_percentile [10; 20]%Q 101 = Raise IndexError.
Proof.
  apply (proj2 calculate_percentile_out_of_range).
  - simpl. lia.
  - unfold Qlt; simpl; lia.
Defined.

(** *** Monotonicity in the percentile *)










(** *** Rounding keeps the order *)

Lemma round_half_even_monotone (x y : Q) :
  (x <= y)%Q -> round_half_even x <= round_half_even y.
Proof.
  intros Hxy. unfold round_half_even.
  pose proof (Qfloor_resp_le x y Hxy) as Hfl.
  pose proof (Qfloor_le x) as Hx0. pose proof (Qfloor_le y) as Hy0.
  destruct (Z.eq_dec (Qfloor x) (Qfloor y)) as [E|E].
  - rewrite <- E in *. set (f := inject_Z (Qfloor x)) in *.
    destruct (Qcompare_spec (x - f) (1 # 2)) as [Hx|Hx|Hx];
      destruct (Qcompare_spec (y - f) (1 # 2)) as [Hy|Hy|Hy];
      try (exfalso; lra); destruct (Z.even (Qfloor x)); lia.
  - assert (Hlt : Qfloor x + 1 <= Qfloor y) by lia.
    destruct (Qcompare (x - inject_Z (Qfloor x)) (1 # 2));
      destruct (Qcompare (y - inject_Z (Qfloor y)) (1 # 2));
      destruct (Z.even (Qfloor x)); destruct (Z.even (Qfloor y)); lia.
Qed.

Lemma round_monotone (x y : Q) (ndigits : nat) :
  (x <= y)%Q -> (round x ndigits <= round y ndigits)%Q.
Proof.
  intros Hxy. unfold round. rewrite !Qred_correct.
  set (m := inject_Z (10 ^ Z.of_nat ndigits)).
  assert (Hm : (0 < m)%Q).
  { unfold m. change 0%Q with (inject_Z 0). rewrite <- Zlt_Qlt.
    apply Z.pow_pos_nonneg; lia. }
  unfold Qdiv. apply Qmult_le_compat_r.
  - rewrite <- Zle_Qle. apply round_half_even_monotone.
    apply Qmult_le_compat_r; [exact Hxy | apply Qlt_le_weak, Hm].
  - apply Qinv_le_0_compat, Qlt_le_weak, Hm.
Qed.



(** ** The counters of the health endpoint *)

Lemma fold_left_add_shift (l : list Z) (z : Z) :
  fold_left Z.add l z = z + fold_left Z.add l 0.
Proof.
  revert z. induction l as [|y l IH]; intros z; simpl; [lia|].
  rewrite (IH (z + y)), (IH (0 + y)). lia.
Qed.

Lemma sum_Z_cons (x : Z) (l : list Z) : sum_Z (x :: l) = x + sum_Z l.
Proof. unfold sum_Z. simpl. apply fold_left_add_shift. Qed.

Lemma sum_Z_app (l1 l2 : list Z) : sum_Z (l1 ++ l2) = sum_Z l1 + sum_Z l2.
Proof.
  induction l1 as [|x l1 IH]; simpl; [reflexivity|].
  rewrite !sum_Z_cons, IH. lia.
Qed.

Global Instance sum_Z_Permutation : Proper ((≡ₚ) ==> (=)) sum_Z.
Proof.
  intros l1 l2 H. induction H as [|x l1 l2 _ IH|x y l|l1 l2 l3 _ IH1 _ IH2].
  - reflexivity.
  - rewrite !sum_Z_cons, IH. reflexivity.
  - rewrite !sum_Z_cons. lia.
  - congruence.
Qed.

(** The number of records in a ledger. *)
Lemma ledger_total_insert (er : gmap string (list ExecutionData))
    (k : string) (v : list ExecutionData) :
  er !! k = None ->
  sum_Z (len <$> (map_to_list (<[k := v]> er)).*2) =
  len v + sum_Z (len <$> (map_to_list er).*2).
Proof.
  intros H. rewrite (map_to_list_insert er k v H). simpl.
  apply sum_Z_cons.
Qed.

Lemma ledger_total_delete (er : gmap string (list ExecutionData))
    (k : string) (v : list ExecutionData) :
  er !! k = Some v ->
  sum_Z (len <$> (map_to_list er).*2) =
  len v + sum_Z (len <$> (map_to_list (delete k er)).*2).
Proof.
  intros H. rewrite <- (map_to_list_delete er k v H). simpl.
  apply sum_Z_cons.
Qed.

Lemma ledger_total_append (er : gmap string (list ExecutionData))
    (k : string) (d : ExecutionData) :
  sum_Z (len <$> (map_to_list
    (alter (fun l => l ++ [d]) k
       match er !! k with
       | Some _ => er
       | None => <[k := []]> er
       end)).*2) =
  sum_Z (len <$> (map_to_list er).*2) + 1.
Proof.
  destruct (er !! k) as [v|] eqn:E.
  - assert (Ea : alter (fun l => l ++ [d]) k er =
                 <[k := v ++ [d]]> (delete k er)).
    { apply map_eq. intros j. destruct (decide (k = j)) as [<-|Hne].
      - rewrite lookup_alter_eq, lookup_insert_eq, E. reflexivity.
      - rewrite lookup_alter_ne, lookup_insert_ne, lookup_delete_ne
          by assumption. reflexivity. }
    rewrite Ea, ledger_total_insert by apply lookup_delete_eq.
    rewrite (ledger_total_delete er k v E).
    unfold len. rewrite length_app. simpl. lia.
  - assert (Ea : alter (fun l => l ++ [d]) k (<[k := []]> er) =
                 <[k := [d]]> er).
    { apply map_eq. intros j. destruct (decide (k = j)) as [<-|Hne].
      - rewrite lookup_alter_eq, !lookup_insert_eq. reflexivity.
      - rewrite lookup_alter_ne, !lookup_insert_ne by assumption.
        reflexivity. }
    rewrite Ea, ledger_total_insert by assumption. unfold len. simpl. lia.
Qed.

Lemma dict_set_length {V : Type} (k : string) (v : V) (d : dict V) :
  length (dict_set k v d) =
  if dict_in k d then length d else S (length d).
Proof.
  unfold dict_in. induction d as [|[k' v'] d IH]; simpl; [reflexivity|].
  destruct (decide (k' = k)); simpl; [reflexivity|].
  rewrite IH. destruct (dict_get k d); reflexivity.
Qed.

(** Recording an execution raises [total_executions] by one, and
    [agent_count] by one exactly when the agent was not registered yet. *)
Theorem root_after_record_execution (cfg : Config) (now : Clock)
    (e : AgentExecution) (s : State) :
  let s' := record_execution now e s in
  total_executions (root cfg s') = total_executions (root cfg s) + 1 /\
  agent_count (root cfg s') =
  agent_count (root cfg s) +
  (if dict_in (agent_id e) (agent_metadata s) then 0 else 1).
Proof.
  intros s'. split.
  - unfold s', record_execution, root. simpl.
    rewrite update_agent_averages_records. simpl.
    apply ledger_total_append.
  - unfold root; simpl. unfold len.
    pose proof (record_execution_keys now e s) as Hk.
    apply (f_equal length) in Hk. unfold dict_keys in Hk.
    rewrite length_fmap in Hk. fold s' in Hk. rewrite Hk.
    destruct (dict_in (agent_id e) (agent_metadata s)).
    + rewrite length_fmap. lia.
    + rewrite length_app, length_fmap. simpl. lia.
Qed.

Lemma root_after_record_execution_witness :
  total_executions
    (root sample_config
       (record_execution sample_clock (sample_execution "b2" None None)
          sample_state)) = 4 /\
  agent_count
    (root sample_config
       (record_execution sample_clock (sample_execution "b2" None None)
          sample_state)) = 2.
Proof.
  destruct (root_after_record_execution sample_config sample_clock
              (sample_execution "b2" None None) sample_state) as [Ht Hc].
  split.
  - rewrite Ht. vm_compute. reflexivity.
  - rewrite Hc. vm_compute. reflexivity.
Defined.

Lemma filter_all {A : Type} (P : A -> Prop) `{forall x, Decision (P x)}
    (l : list A) :
  Forall P l -> filter P l = l.
Proof.
  induction 1 as [|x l Hx _ IH]; [reflexivity|].
  rewrite filter_cons_True by assumption. rewrite IH. reflexivity.
Qed.

Lemma dict_del_length {V : Type} (k : string) (d : dict V) :
  NoDup (dict_keys d) -> dict_in k d = true ->
  length d = S (length (dict_del k d)).
Proof.
  unfold dict_keys, dict_del, dict_in.
  induction d as [|[k' v'] d IH]; simpl; intros Hnd Hin; [discriminate|].
  apply NoDup_cons in Hnd. destruct Hnd as [Hk' Hnd].
  rewrite filter_cons. simpl.
  destruct (decide (k' = k)) as [->|Hne].
  - rewrite decide_False by (intros H; apply H; reflexivity).
    f_equal. symmetry. f_equal. apply filter_all.
    apply Forall_forall. intros [k0 v0] Hkv. simpl. intros ->.
    apply Hk'. apply (list_elem_of_fmap_2 fst) in Hkv. exact Hkv.
  - rewrite decide_True by assumption. simpl. f_equal.
    apply IH; assumption.
Qed.

(** Deleting a registered agent lowers [agent_count] by one and
    [total_executions] by the length of the agent's history. *)
Theorem root_after_delete_agent (cfg : Config) (a : string) (s : State) :
  NoDup (dict_keys (agent_metadata s)) -> registered s a ->
  let s' := (delete_agent a s).2 in
  agent_count (root cfg s') = agent_count (root cfg s) - 1 /\
  total_executions (root cfg s') =
  total_executions (root cfg s) - len (history s a).
Proof.
  intros Hnd Hreg s'. unfold s'.
  rewrite delete_agent_present by assumption. unfold root; simpl. split.
  - unfold len. rewrite (dict_del_length a (agent_metadata s) Hnd Hreg). lia.
  - unfold history. destruct (execution_records s !! a) as [v|] eqn:E.
    + rewrite (ledger_total_delete _ a v E). simpl. lia.
    + rewrite delete_id by assumption. simpl. unfold len. simpl. lia.
Qed.

Lemma root_after_delete_agent_witness :
  total_executions (root sample_config (delete_agent "a1" sample_state).2) =
  total_executions (root sample_config sample_state) - 3.
Proof.
  apply (proj2 (root_after_delete_agent sample_config "a1" sample_state
                  (wf_keys _ (reachable_well_formed _
                     (ex_intro _ (record_ops sample_calls) eq_refl)))
                  eq_refl)).
Defined.

(** *** The counters agree with the per-agent statistics *)







(** ** Identifiers of deployed agents *)

Lemma split_go_nonempty (sep : string) (s : string) :
  forall skip, split_go sep skip s <> [].
Proof.
  induction s as [|c s IH]; intros skip; [discriminate|].
  destruct skip as [|n]; cbn [split_go]; [|apply IH].
  destruct (String.prefix sep (String c s)); [discriminate|].
  destruct (split_go sep 0 s); discriminate.
Qed.

Lemma str_contains_cons_false (sub : string) (c : ascii) (s : string) :
  str_contains sub (String c s) = false ->
  String.prefix sub (String c s) = false /\ str_contains sub s = false.
Proof.
  cbn [str_contains].
  destruct (String.prefix sub (String c s)); [discriminate|].
  intros H. split; [reflexivity | exact H].
Qed.

(** Without an occurrence of the separator there is one piece. *)
Lemma split_go_no_match (sep s : string) :
  str_contains sep s = false -> split_go sep 0 s = [s].
Proof.
  induction s as [|c s IH]; intros H; [reflexivity|].
  apply str_contains_cons_false in H. destruct H as [Hp Hc].
  cbn [split_go]. rewrite Hp, (IH Hc). reflexivity.
Qed.

Lemma last_cons_nonempty {A : Type} (x : A) (l : list A) :
  l <> [] -> last (x :: l) = last l.
Proof. destruct l; [congruence | reflexivity]. Qed.

Lemma prefix_nil (s : string) : String.prefix EmptyString s = true.
Proof. destruct s; reflexivity. Qed.

Lemma prefix_slash (c : ascii) (s : string) :
  String.prefix "/" (String c s) =
  if ascii_dec "/"%char c then true else false.
Proof.
  cbn [String.prefix]. destruct (ascii_dec "/"%char c); [|reflexivity].
  apply prefix_nil.
Qed.

Lemma str_contains_slash_cons (c : ascii) (s : string) :
  str_contains "/" (String c s) =
  if ascii_dec "/"%char c then true else str_contains "/" s.
Proof.
  cbn [str_contains]. rewrite prefix_slash.
  destruct (ascii_dec "/"%char c); reflexivity.
Qed.

(** With an occurrence of "/" there are at least two pieces. *)
Lemma split_slash_two (s : string) :
  str_contains "/" s = true ->
  exists piece pieces, split_go "/" 0 s = piece :: pieces /\ pieces <> [].
Proof.
  induction s as [|c s IH]; intros H; [discriminate|].
  rewrite str_contains_slash_cons in H. cbn [split_go].
  rewrite prefix_slash.
  destruct (ascii_dec "/"%char c) as [E|E].
  - eexists _, _. split; [reflexivity|]. apply split_go_nonempty.
  - destruct (IH H) as (p & ps & -> & Hps). eauto.
Qed.

Lemma last_piece_slash_cons (c : ascii) (s : string) :
  last_piece "/" (String c s) =
  if ascii_dec "/"%char c then last_piece "/" s
  else if str_contains "/" s then last_piece "/" s
  else String c s.
Proof.
  unfold last_piece, str_split. cbn [split_go].
  rewrite prefix_slash.
  destruct (ascii_dec "/"%char c) as [E|E].
  - rewrite last_cons_nonempty by apply split_go_nonempty. reflexivity.
  - destruct (str_contains "/" s) eqn:Hc.
    + destruct (split_slash_two s Hc) as (p & ps & -> & Hps).
      rewrite !last_cons_nonempty by assumption. reflexivity.
    + rewrite (split_go_no_match "/" s Hc). reflexivity.
Qed.

Lemma last_piece_slash_spec (s : string) :
  str_contains "/" (last_piece "/" s) = false /\
  exists pre,
    s = pre +:+ last_piece "/" s /\
    (str_contains "/" s = true -> exists p, pre = p +:+ "/") /\
    (str_contains "/" s = false -> pre = EmptyString).
Proof.
  induction s as [|c s (IHc & pre & IHs & IHt & IHf)].
  - split; [reflexivity|]. exists EmptyString.
    split; [reflexivity|]. split; [discriminate | reflexivity].
  - rewrite last_piece_slash_cons, str_contains_slash_cons.
    destruct (ascii_dec "/"%char c) as [E|E].
    + split; [exact IHc|]. exists (String c pre).
      split; [change (String c pre +:+ ?r) with (String c (pre +:+ r));
              f_equal; exact IHs|].
      split; [|discriminate]. intros _.
      destruct (str_contains "/" s) eqn:Hc.
      * destruct (IHt eq_refl) as [p ->]. exists (String c p). reflexivity.
      * rewrite (IHf eq_refl). exists EmptyString. subst c. reflexivity.
    + destruct (str_contains "/" s) eqn:Hc.
      * split; [exact IHc|]. exists (String c pre).
        split; [change (String c pre +:+ ?r) with (String c (pre +:+ r));
                f_equal; exact IHs|].
        split; [|discriminate]. intros _.
        destruct (IHt eq_refl) as [p ->]. exists (String c p). reflexivity.
      * split.
        -- rewrite str_contains_slash_cons.
           destruct (ascii_dec "/"%char c); [contradiction | exact Hc].
        -- exists EmptyString. split; [reflexivity|].
           split; [discriminate | reflexivity].
Qed.

(** The short id of a deployed agent contains no "/" and is the end of
    the full resource name: everything after its last "/", or the whole
    name when it has none. *)
Theorem short_agent_id_spec (full_name : string) :
  str_contains "/" (short_agent_id full_name) = false /\
  exists pre,
    full_name = pre +:+ short_agent_id full_name /\
    (str_contains "/" full_name = true -> exists p, pre = p +:+ "/") /\
    (str_contains "/" full_name = false -> pre = EmptyString).
Proof.
  unfold short_agent_id. destruct (str_contains "/" full_name) eqn:E.
  - destruct (last_piece_slash_spec full_name) as (Hc & pre & Hs & Ht & Hf).
    split; [exact Hc|]. exists pre. split; [exact Hs|].
    split; [intros _; apply Ht, E | discriminate].
  - split; [exact E|]. exists EmptyString. split; [reflexivity|].
    split; [discriminate | reflexivity].
Qed.

Lemma short_agent_id_spec_witness :
  str_contains "/"
    (short_agent_id "projects/7/locations/us-central1/reasoningEngines/42") =
  false /\
  exists pre p,
    "projects/7/locations/us-central1/reasoningEngines/42" =
    pre +:+
    short_agent_id "projects/7/locations/us-central1/reasoningEngines/42" /\
    pre = p +:+ "/".
Proof.
  destruct (short_agent_id_spec
              "projects/7/locations/us-central1/reasoningEngines/42")
    as (Hc & pre & Hs & Ht & _).
  split; [exact Hc|]. destruct (Ht eq_refl) as [p Hp].
  exists pre, p. split; assumption.
Defined.

Lemma str_contains_reasoning_engines_slash (s : string) :
  str_contains "/reasoningEngines/" s = true -> str_contains "/" s = true.
Proof.
  induction s as [|c s IH]; [discriminate|].
  cbn [str_contains]. rewrite prefix_slash.
  destruct (String.prefix "/reasoningEngines/" (String c s)) eqn:P.
  - intros _. cbn [String.prefix] in P.
    destruct (ascii_dec "/"%char c); [reflexivity | discriminate].
  - intros H. rewrite (IH H). destruct (ascii_dec "/"%char c); reflexivity.
Qed.

(** An identifier without "/" goes into the metric filter unchanged.  This
    holds for the short id of every entry of the listing, which is also the
    identifier [get_gcp_all] queries for that entry. *)
Theorem usage_agent_id_short :
  (forall agent_id,
     str_contains "/" agent_id = false -> usage_agent_id agent_id = agent_id) /\
  (forall full_name,
     usage_agent_id (short_agent_id full_name) = short_agent_id full_name) /\
  (forall full_name,
     all_agent_id (Some (short_agent_id full_name)) full_name =
     short_agent_id full_name).
Proof.
  assert (H1 : forall agent_id, str_contains "/" agent_id = false ->
                                usage_agent_id agent_id = agent_id).
  { intros agent_id H. unfold usage_agent_id. rewrite H.
    destruct (str_contains "/reasoningEngines/" agent_id) eqn:E;
      [|reflexivity].
    apply str_contains_reasoning_engines_slash in E. congruence. }
  split; [exact H1|]. split.
  - intros full_name. apply H1, short_agent_id_spec.
  - intros full_name. unfold all_agent_id.
    destruct (short_agent_id full_name) eqn:E; [|reflexivity].
    unfold short_agent_id in E. exact E.
Qed.

Lemma usage_agent_id_short_witness :
  usage_agent_id "328353754472513536" = "328353754472513536".
Proof. apply (proj1 usage_agent_id_short). reflexivity. Defined.

(** *** Full resource names *)

Lemma str_app_assoc (s1 s2 s3 : string) :
  (s1 +:+ s2) +:+ s3 = s1 +:+ (s2 +:+ s3).
Proof.
  induction s1 as [|c s1 IH]; [reflexivity|].
  change (String c ((s1 +:+ s2) +:+ s3) = String c (s1 +:+ (s2 +:+ s3))).
  rewrite IH. reflexivity.
Qed.

Lemma prefix_app (s t : string) : String.prefix s (s +:+ t) = true.
Proof.
  induction s as [|c s IH]; [apply prefix_nil|].
  change (String c s +:+ t) with (String c (s +:+ t)).
  cbn [String.prefix]. destruct (ascii_dec c c); [exact IH | congruence].
Qed.

Lemma str_contains_app (sub p t : string) :
  str_contains sub (p +:+ (sub +:+ t)) = true.
Proof.
  induction p as [|c p IH].
  - change (EmptyString +:+ (sub +:+ t)) with (sub +:+ t).
    destruct (sub +:+ t) eqn:E; cbn [str_contains]; rewrite <- E;
      rewrite prefix_app; reflexivity.
  - change (String c p +:+ (sub +:+ t)) with (String c (p +:+ (sub +:+ t))).
    cbn [str_contains]. rewrite IH.
    destruct (String.prefix sub _); reflexivity.
Qed.

(** A pattern without "/" followed by "/" can only match where the
    pattern itself matches, when the text goes on with a "/". *)
Lemma prefix_before_slash (u : string) :
  str_contains "/" u = false ->
  forall p t,
    String.prefix (u +:+ "/") (p +:+ String "/"%char t) = true ->
    String.prefix u p = true.
Proof.
  induction u as [|a u IH]; intros Hu p t H; [apply prefix_nil|].
  rewrite str_contains_slash_cons in Hu.
  destruct (ascii_dec "/"%char a) as [Ea|Ea]; [discriminate|].
  change (String a u +:+ "/") with (String a (u +:+ "/")) in H.
  destruct p as [|b p].
  - change (EmptyString +:+ String "/"%char t) with (String "/"%char t) in H.
    cbn [String.prefix] in H.
    destruct (ascii_dec a "/"%char); [congruence | discriminate].
  - change (String b p +:+ String "/"%char t)
      with (String b (p +:+ String "/"%char t)) in H.
    cbn [String.prefix] in *.
    destruct (ascii_dec a b); [|discriminate]. apply (IH Hu p t H).
Qed.

Lemma no_match_inside_parent (c : ascii) (p ident : string) :
  String.prefix "/reasoningEngines" (String c p) = false ->
  String.prefix "/reasoningEngines/"
    (String c p +:+ ("/reasoningEngines/" +:+ ident)) = false.
Proof.
  intros H.
  destruct (String.prefix "/reasoningEngines/"
              (String c p +:+ ("/reasoningEngines/" +:+ ident))) eqn:P;
    [exfalso | reflexivity].
  change (String c p +:+ ("/reasoningEngines/" +:+ ident))
    with (String c (p +:+ String "/"%char ("reasoningEngines/" +:+ ident)))
    in P.
  change "/reasoningEngines/"
    with (String "/"%char ("reasoningEngines" +:+ "/")) in P.
  change "/reasoningEngines" with (String "/"%char "reasoningEngines") in H.
  cbn [String.prefix] in P, H.
  destruct (ascii_dec "/"%char c); [|discriminate].
  apply prefix_before_slash in P; [congruence | reflexivity].
Qed.

Lemma split_resource_name (parent ident : string) :
  str_contains "/reasoningEngines" parent = false ->
  str_contains "/" ident = false ->
  str_split "/reasoningEngines/"
    (parent +:+ ("/reasoningEngines/" +:+ ident)) = [parent; ident].
Proof.
  intros Hp Hi. unfold str_split.
  assert (Hn : split_go "/reasoningEngines/" 0 ident = [ident]).
  { apply split_go_no_match.
    destruct (str_contains "/reasoningEngines/" ident) eqn:E; [|reflexivity].
    apply str_contains_reasoning_engines_slash in E. congruence. }
  induction parent as [|c p IH].
  - change (EmptyString +:+ ("/reasoningEngines/" +:+ ident))
      with (String "/"%char ("reasoningEngines/" +:+ ident)).
    cbn [split_go].
    change (String "/"%char ("reasoningEngines/" +:+ ident))
      with ("/reasoningEngines/" +:+ ident).
    rewrite prefix_app.
    change (String.length "/reasoningEngines/" - 1)%nat with 17%nat.
    change ("reasoningEngines/" +:+ ident)
      with (String "r" (String "e" (String "a" (String "s" (String "o"
           (String "n" (String "i" (String "n" (String "g" (String "E"
           (String "n" (String "g" (String "i" (String "n" (String "e"
           (String "s" (String "/" ident))))))))))))))))).
    cbn [split_go]. rewrite Hn. reflexivity.
  - apply str_contains_cons_false in Hp. destruct Hp as [Hpre Hp].
    change (String c p +:+ ("/reasoningEngines/" +:+ ident))
      with (String c (p +:+ ("/reasoningEngines/" +:+ ident))).
    cbn [split_go].
    change (String c (p +:+ ("/reasoningEngines/" +:+ ident)))
      with (String c p +:+ ("/reasoningEngines/" +:+ ident)).
    rewrite (no_match_inside_parent c p ident Hpre), (IH Hp). reflexivity.
Qed.

Lemma last_piece_slash_app (p ident : string) :
  str_contains "/" ident = false ->
  last_piece "/" (p +:+ String "/"%char ident) = ident.
Proof.
  intros Hi.
  assert (Hbase : last_piece "/" (String "/"%char ident) = ident).
  { rewrite last_piece_slash_cons.
    destruct (ascii_dec "/"%char "/"%char); [|congruence].
    unfold last_piece, str_split.
    rewrite (split_go_no_match "/" ident Hi). reflexivity. }
  induction p as [|c p IH]; [exact Hbase|].
  change (String c p +:+ String "/"%char ident)
    with (String c (p +:+ String "/"%char ident)).
  rewrite last_piece_slash_cons.
  assert (Hc : str_contains "/" (p +:+ String "/"%char ident) = true)
    by apply (str_contains_app "/" p ident).
  rewrite Hc. destruct (ascii_dec "/"%char c); exact IH.
Qed.

(** For a full resource name [parent/reasoningEngines/ID], where [ID] has
    no "/" and "/reasoningEngines" does not occur in [parent], the listing
    shows the short id [ID] and the usage query filters on [ID]. *)
Theorem resource_name_ids (parent ident : string) :
  str_contains "/reasoningEngines" parent = false ->
  str_contains "/" ident = false ->
  short_agent_id (parent +:+ "/reasoningEngines/" +:+ ident) = ident /\
  usage_agent_id (parent +:+ "/reasoningEngines/" +:+ ident) = ident.
Proof.
  intros Hp Hi.
  assert (Hs : str_contains "/"
                 (parent +:+ "/reasoningEngines/" +:+ ident) = true).
  { apply str_contains_reasoning_engines_slash.
    apply (str_contains_app "/reasoningEngines/" parent ident). }
  split.
  - unfold short_agent_id. rewrite Hs.
    change (parent +:+ "/reasoningEngines/" +:+ ident)
      with (parent +:+ ("/reasoningEngines" +:+ String "/"%char ident)).
    rewrite <- str_app_assoc. apply last_piece_slash_app, Hi.
  - unfold usage_agent_id.
    rewrite (str_contains_app "/reasoningEngines/" parent ident).
    unfold last_piece. rewrite split_resource_name by assumption.
    reflexivity.
Qed.

Lemma resource_name_ids_witness :
  usage_agent_id
    ("projects/7/locations/us-central1" +:+ "/reasoningEngines/" +:+ "42") =
  "42".
Proof.
  apply (proj2 (resource_name_ids "projects/7/locations/us-central1" "42"
                  eq_refl eq_refl)).
Defined.

(** ** Timestamps of deployed agents *)

Lemma prefix_char (a c : ascii) (s : string) :
  String.prefix (String a EmptyString) (String c s) =
  if ascii_dec a c then true else false.
Proof.
  cbn [String.prefix]. destruct (ascii_dec a c); [|reflexivity].
  apply prefix_nil.
Qed.

Lemma str_contains_char_cons (a c : ascii) (s : string) :
  str_contains (String a EmptyString) (String c s) =
  if ascii_dec a c then true else str_contains (String a EmptyString) s.
Proof.
  cbn [str_contains]. rewrite prefix_char.
  destruct (ascii_dec a c); reflexivity.
Qed.

Lemma str_replace_char_cons (a : ascii) (new : string) (c : ascii)
    (s : string) :
  str_replace (String a EmptyString) new (String c s) =
  if ascii_dec a c then new +:+ str_replace (String a EmptyString) new s
  else String c (str_replace (String a EmptyString) new s).
Proof.
  unfold str_replace. cbn [replace_go]. rewrite prefix_char.
  destruct (ascii_dec a c); reflexivity.
Qed.

Lemma str_replace_char_app (a : ascii) (new s1 s2 : string) :
  str_replace (String a EmptyString) new (s1 +:+ s2) =
  str_replace (String a EmptyString) new s1 +:+
  str_replace (String a EmptyString) new s2.
Proof.
  induction s1 as [|c s1 IH]; [reflexivity|].
  change (String c s1 +:+ s2) with (String c (s1 +:+ s2)).
  rewrite !str_replace_char_cons, IH.
  destruct (ascii_dec a c); [|reflexivity].
  symmetry. apply str_app_assoc.
Qed.

Lemma str_replace_char_absent (a : ascii) (new s : string) :
  str_contains (String a EmptyString) s = false ->
  str_replace (String a EmptyString) new s = s.
Proof.
  induction s as [|c s IH]; [reflexivity|].
  rewrite str_contains_char_cons, str_replace_char_cons.
  destruct (ascii_dec a c); [discriminate|].
  intros H. rewrite (IH H). reflexivity.
Qed.

Lemma str_contains_char_app (a : ascii) (s1 s2 : string) :
  str_contains (String a EmptyString) (s1 +:+ s2) =
  str_contains (String a EmptyString) s1 ||
  str_contains (String a EmptyString) s2.
Proof.
  induction s1 as [|c s1 IH]; [reflexivity|].
  change (String c s1 +:+ s2) with (String c (s1 +:+ s2)).
  rewrite !str_contains_char_cons, IH.
  destruct (ascii_dec a c); reflexivity.
Qed.

(** Replacing a character removes it, unless the replacement brings it
    back; it brings in no other character than those of the replacement. *)
Lemma str_replace_char_contains (a b : ascii) (new s : string) :
  str_contains (String b EmptyString) new = false ->
  (a = b \/ str_contains (String b EmptyString) s = false) ->
  str_contains (String b EmptyString)
    (str_replace (String a EmptyString) new s) = false.
Proof.
  intros Hnew. induction s as [|c s IH]; intros H; [reflexivity|].
  rewrite str_replace_char_cons.
  assert (Hs : a = b \/ str_contains (String b EmptyString) s = false).
  { destruct H as [H|H]; [left; exact H|]. right.
    rewrite str_contains_char_cons in H.
    destruct (ascii_dec b c); [discriminate | exact H]. }
  destruct (ascii_dec a c) as [E|E].
  - rewrite str_contains_char_app, Hnew, (IH Hs). reflexivity.
  - rewrite str_contains_char_cons, (IH Hs).
    destruct (ascii_dec b c) as [E'|E']; [|reflexivity].
    destruct H as [H|H]; [congruence|].
    rewrite str_contains_char_cons in H.
    destruct (ascii_dec b c); [discriminate | contradiction].
Qed.

Lemma str_take_length (n : nat) (s : string) :
  (String.length (str_take n s) <= n)%nat.
Proof.
  revert s. induction n as [|n IH]; intros [|c s]; simpl; try lia.
  specialize (IH s). lia.
Qed.

Lemma str_take_contains (b : ascii) (n : nat) (s : string) :
  str_contains (String b EmptyString) s = false ->
  str_contains (String b EmptyString) (str_take n s) = false.
Proof.
  revert s. induction n as [|n IH]; intros [|c s] H; try reflexivity.
  cbn [str_take]. rewrite str_contains_char_cons in *.
  destruct (ascii_dec b c); [discriminate | apply IH, H].
Qed.

Lemma str_length_app (s t : string) :
  String.length (s +:+ t) = (String.length s + String.length t)%nat.
Proof.
  induction s as [|c s IH]; [reflexivity|].
  change (String c s +:+ t) with (String c (s +:+ t)).
  cbn [String.length]. rewrite IH. reflexivity.
Qed.

Lemma str_take_app (s t : string) :
  str_take (String.length s) (s +:+ t) = s.
Proof.
  induction s as [|c s IH]; [destruct t; reflexivity|].
  change (String c s +:+ t) with (String c (s +:+ t)).
  cbn [String.length str_take]. rewrite IH. reflexivity.
Qed.

(** A missing or empty engine timestamp gives no time.  Any other one gives
    a string of at most 19 characters without "T" and "Z"; an instant
    written as a 10-character date, "T", an 8-character time and any
    fraction and zone suffix shows as the date, a space and the time. *)
Theorem format_time_spec :
  format_time None = None /\
  format_time (Some EmptyString) = None /\
  (forall t, t <> EmptyString ->
     exists r, format_time (Some t) = Some r /\
               (String.length r <= 19)%nat /\
               str_contains "T" r = false /\ str_contains "Z" r = false) /\
  (forall date time rest,
     String.length date = 10%nat -> String.length time = 8%nat ->
     str_contains "T" date = false -> str_contains "Z" date = false ->
     str_contains "T" time = false -> str_contains "Z" time = false ->
     format_time (Some (date +:+ "T" +:+ time +:+ rest)) =
     Some (date +:+ " " +:+ time)).
Proof.
  split; [reflexivity|]. split; [reflexivity|]. split.
  - intros [|c r] Ht; [contradiction|]. eexists. split; [reflexivity|].
    split; [apply str_take_length|]. split.
    + apply str_take_contains, str_replace_char_contains; [reflexivity|].
      right. apply str_replace_char_contains; [reflexivity|]. left.
      reflexivity.
    + apply str_take_contains, str_replace_char_contains; [reflexivity|].
      left. reflexivity.
  - intros date time rest Hd Ht HdT HdZ HtT HtZ.
    assert (Hne : exists c r, date +:+ "T" +:+ time +:+ rest = String c r).
    { destruct date as [|c d]; [discriminate|]. eauto. }
    destruct Hne as (c & r & Hcr). unfold format_time. rewrite Hcr.
    rewrite <- Hcr. f_equal.
    rewrite !str_replace_char_app.
    rewrite (str_replace_char_absent "T" " " date HdT).
    rewrite (str_replace_char_absent "T" " " time HtT).
    change (str_replace "T" " " "T") with " ".
    rewrite (str_replace_char_absent "Z" EmptyString date HdZ).
    rewrite (str_replace_char_absent "Z" EmptyString time HtZ).
    change (str_replace "Z" EmptyString " ") with " ".
    set (R := str_replace "Z" EmptyString (str_replace "T" " " rest)).
    rewrite <- (str_app_assoc " " time R).
    rewrite <- (str_app_assoc date (" " +:+ time) R).
    assert (Hl : String.length (date +:+ " " +:+ time) = 19%nat).
    { rewrite !str_length_app, Hd, Ht. reflexivity. }
    rewrite <- Hl. apply str_take_app.
Qed.

Lemma format_time_spec_witness :
  format_time (Some ("2025-01-31" +:+ "T" +:+ "08:15:00" +:+ ".123456Z")) =
  Some "2025-01-31 08:15:00".
Proof.
  apply (proj2 (proj2 (proj2 format_time_spec)) "2025-01-31" "08:15:00");
    reflexivity.
Defined.

(** * Properties of ReasoningCost *)

Lemma round_between (x lo hi : Q) (n : nat) :
  (lo <= x)%Q -> (x <= hi)%Q ->
  (round lo n == lo)%Q -> (round hi n == hi)%Q ->
  (lo <= round x n)%Q /\ (round x n <= hi)%Q.
Proof.
  intros Hlo Hhi Elo Ehi. split.
  - rewrite <- Elo. apply round_monotone, Hlo.
  - rewrite <- Ehi. apply round_monotone, Hhi.
Qed.

Module ReasoningCostFacts.
Import ReasoningCost.

Lemma py_min_le_l (a b : Q) : (py_min a b <= a)%Q.
Proof.
  unfold py_min. destruct (Qlt_le_dec b a) as [H|H];
    [apply Qlt_le_weak, H | apply Qle_refl].
Qed.

Lemma py_min_le_r (a b : Q) : (py_min a b <= b)%Q.
Proof.
  unfold py_min. destruct (Qlt_le_dec b a) as [H|H];
    [apply Qle_refl | exact H].
Qed.

Lemma py_min_glb (a b lo : Q) :
  (lo <= a)%Q -> (lo <= b)%Q -> (lo <= py_min a b)%Q.
Proof. intros Ha Hb. unfold py_min. destruct (Qlt_le_dec b a); assumption. Qed.

Lemma ratio_nonneg (n d : Z) :
  0 <= n -> 0 < d -> (0 <= inject_Z n / inject_Z d)%Q.
Proof.
  intros Hn Hd. apply Qle_shift_div_l.
  - change 0%Q with (inject_Z 0). rewrite <- Zlt_Qlt. exact Hd.
  - rewrite Qmult_0_l. change 0%Q with (inject_Z 0). rewrite <- Zle_Qle.
    exact Hn.
Qed.

(** The expansion factor never exceeds 3; it is 1 for a trace without
    steps, and not negative when tokens and steps are not. *)
Theorem calculate_expansion_factor_bounds (tokens_in_trace steps : Z) :
  (calculate_expansion_factor tokens_in_trace steps <= 3)%Q /\
  calculate_expansion_factor tokens_in_trace 0 = 1%Q /\
  (0 <= tokens_in_trace -> 0 <= steps ->
   (0 <= calculate_expansion_factor tokens_in_trace steps)%Q).
Proof.
  split; [|split; [reflexivity|]].
  - unfold calculate_expansion_factor.
    destruct (steps =? 0); [unfold Qle; simpl; lia|].
    destruct (Qeq_bool _ _); [unfold Qle; simpl; lia|].
    apply py_min_le_r.
  - intros Ht Hs. unfold calculate_expansion_factor.
    destruct (steps =? 0) eqn:E; [unfold Qle; simpl; lia|].
    apply Z.eqb_neq in E.
    destruct (Qeq_bool _ _); [unfold Qle; simpl; lia|].
    apply py_min_glb; [|unfold Qle; simpl; lia].
    assert (Hexp : (0 <= inject_Z tokens_in_trace /
                         (inject_Z steps *
                          (inject_Z BASE_TOKENS / inject_Z BASE_STEPS)))%Q).
    { apply Qle_shift_div_l.
      - apply Qmult_lt_0_compat; [|reflexivity].
        change 0%Q with (inject_Z 0). rewrite <- Zlt_Qlt. lia.
      - rewrite Qmult_0_l. change 0%Q with (inject_Z 0).
        rewrite <- Zle_Qle. exact Ht. }
    change 0%Q with (round 0 2). apply round_monotone, Hexp.
Qed.

Lemma calculate_expansion_factor_bounds_witness :
  (0 <= calculate_expansion_factor 1200 8)%Q.
Proof.
  apply (proj2 (proj2 (calculate_expansion_factor_bounds 1200 8))); lia.
Defined.

(** For counts that are not negative and an expansion factor in [0, 3],
    the cost score lies between -0.15 and 1. *)
Theorem calculate_cost_score_bounds (steps tool_calls tokens_in_trace : Z)
    (expansion_factor : Q) :
  0 <= steps -> 0 <= tool_calls ->
  (0 <= expansion_factor)%Q -> (expansion_factor <= 3)%Q ->
  (- (15 # 100) <=
   calculate_cost_score steps tool_calls tokens_in_trace expansion_factor)%Q /\
  (calculate_cost_score steps tool_calls tokens_in_trace expansion_factor
   <= 1)%Q.
Proof.
  intros Hs Ht He0 He3. unfold calculate_cost_score.
  set (a := py_min (inject_Z steps / 20) 1).
  set (b := py_min (inject_Z tool_calls / 10) 1).
  set (c := py_min ((expansion_factor - 1) / 2) 1).
  assert (Ha : (0 <= a)%Q /\ (a <= 1)%Q).
  { split; [|apply py_min_le_r].
    apply py_min_glb; [|unfold Qle; simpl; lia].
    apply (ratio_nonneg steps 20); lia. }
  assert (Hb : (0 <= b)%Q /\ (b <= 1)%Q).
  { split; [|apply py_min_le_r].
    apply py_min_glb; [|unfold Qle; simpl; lia].
    apply (ratio_nonneg tool_calls 10); lia. }
  assert (Hc : (- (1 # 2) <= c)%Q /\ (c <= 1)%Q).
  { split; [|apply py_min_le_r].
    apply py_min_glb; [|unfold Qle; simpl; lia].
    unfold Qdiv. change (/ 2)%Q with (1 # 2)%Q. lra. }
  destruct Ha as [Ha0 Ha1], Hb as [Hb0 Hb1], Hc as [Hc0 Hc1].
  apply round_between; [lra | lra | reflexivity | reflexivity].
Qed.

Lemma calculate_cost_score_bounds_witness :
  (- (15 # 100) <= calculate_cost_score 1 0 0 0)%Q /\
  (calculate_cost_score 1 0 0 0 <= 1)%Q.
Proof.
  apply calculate_cost_score_bounds;
    try lia; unfold Qle; simpl; lia.
Defined.





Lemma MODEL_PRICING_nonneg (m : string) (p : Q * Q) :
  dict_get m MODEL_PRICING = Some p -> (0 <= p.1)%Q /\ (0 <= p.2)%Q.
Proof.
  unfold MODEL_PRICING. cbn [dict_get].
  repeat (destruct (decide _);
          [intros [= <-]; split; cbn; unfold Qle; simpl; lia|]).
  discriminate.
Qed.

Lemma part_cost_nonneg (n : Z) (price : Q) :
  0 <= n -> (0 <= price)%Q -> (0 <= inject_Z n / 1000000 * price)%Q.
Proof.
  intros Hn Hp. apply Qmult_le_0_compat; [|exact Hp].
  apply Qle_shift_div_l; [reflexivity|].
  rewrite Qmult_0_l. change 0%Q with (inject_Z 0). rewrite <- Zle_Qle. exact Hn.
Qed.

(** With default prices that are not negative and token counts that are not
    negative, the breakdown has a total that is not negative, and each part
    cost it reports lies between 0 and the total. *)
Theorem calculate_llm_cost_parts_le_total (cfg : Config)
    (i o : option Z) (model : option string) :
  (0 <= DEFAULT_INPUT_TOKEN_PRICE_PER_MILLION cfg)%Q ->
  (0 <= DEFAULT_OUTPUT_TOKEN_PRICE_PER_MILLION cfg)%Q ->
  0 <= default 0 i -> 0 <= default 0 o ->
  i <> None \/ o <> None ->
  let b := calculate_llm_cost cfg i o model in
  exists total,
    cb_estimated_cost_usd b = Some total /\ (0 <= total)%Q /\
    (forall c, cb_input_cost_usd b = Some c -> (0 <= c)%Q /\ (c <= total)%Q) /\
    (forall c, cb_output_cost_usd b = Some c -> (0 <= c)%Q /\ (c <= total)%Q).
Proof.
  intros Hdi Hdo Hi Ho Hio b.
  set (priced := match model with
                 | Some (String c r) => dict_get (String c r) MODEL_PRICING
                 | _ => None
                 end).
  set (pin := match priced with
              | Some p => p.1
              | None => DEFAULT_INPUT_TOKEN_PRICE_PER_MILLION cfg
              end).
  set (pout := match priced with
               | Some p => p.2
               | None => DEFAULT_OUTPUT_TOKEN_PRICE_PER_MILLION cfg
               end).
  assert (Hpin : (0 <= pin)%Q /\ (0 <= pout)%Q).
  { unfold pin, pout. destruct priced as [p|] eqn:E; [|split; assumption].
    unfold priced in E. destruct model as [[|c r]|]; try discriminate.
    apply (MODEL_PRICING_nonneg _ _ E). }
  destruct Hpin as [Hpin Hpout].
  set (ic := if int_bool i
             then (inject_Z (default 0%Z i) / 1000000 * pin)%Q else 0%Q).
  set (oc := if int_bool o
             then (inject_Z (default 0%Z o) / 1000000 * pout)%Q else 0%Q).
  assert (Hic : (0 <= ic)%Q).
  { unfold ic. destruct (int_bool i); [|apply Qle_refl].
    apply part_cost_nonneg; assumption. }
  assert (Hoc : (0 <= oc)%Q).
  { unfold oc. destruct (int_bool o); [|apply Qle_refl].
    apply part_cost_nonneg; assumption. }
  assert (Eb : cb_estimated_cost_usd b = Some (round (ic + oc) 6) /\
               cb_input_cost_usd b =
               (if int_bool i then Some (round ic 6) else None) /\
               cb_output_cost_usd b =
               (if int_bool o then Some (round oc 6) else None)).
  { unfold b, calculate_llm_cost.
    destruct i, o; try (repeat split; reflexivity).
    destruct Hio; congruence. }
  destruct Eb as (Et & Ei & Eo).
  assert (R0 : forall x, (0 <= x)%Q -> (0 <= round x 6)%Q).
  { intros x Hx. change 0%Q with (round 0 6) at 1.
    apply round_monotone, Hx. }
  exists (round (ic + oc) 6). split; [exact Et|]. split.
  - apply R0. lra.
  - split; intros c Hc.
    + rewrite Ei in Hc. destruct (int_bool i); [|discriminate].
      injection Hc as <-. split; [apply R0, Hic|].
      apply round_monotone. lra.
    + rewrite Eo in Hc. destruct (int_bool o); [|discriminate].
      injection Hc as <-. split; [apply R0, Hoc|].
      apply round_monotone. lra.
Qed.

Lemma calculate_llm_cost_parts_le_total_witness :
  exists total,
    cb_estimated_cost_usd
      (calculate_llm_cost default_config (Some 1000) None (Some "gpt-4")) =
    Some total /\ (0 <= total)%Q /\
    (forall c,
       cb_input_cost_usd
         (calculate_llm_cost default_config (Some 1000) None (Some "gpt-4")) =
       Some c -> (0 <= c)%Q /\ (c <= total)%Q) /\
    (forall c,
       cb_output_cost_usd
         (calculate_llm_cost default_config (Some 1000) None (Some "gpt-4")) =
       Some c -> (0 <= c)%Q /\ (c <= total)%Q).
Proof.
  apply (calculate_llm_cost_parts_le_total default_config (Some 1000) None
           (Some "gpt-4")).
  - unfold Qle; simpl; lia.
  - unfold Qle; simpl; lia.
  - simpl; lia.
  - simpl; lia.
  - left; discriminate.
Defined.

End ReasoningCostFacts.

(** ** mcp-tokenstats: model pricing *)

Lemma prefix_split (a s : string) :
  String.prefix a s = true -> exists t, s = a +:+ t.
Proof.
  revert a. induction s as [|c s IH]; intros [|b a] H.
  - exists EmptyString. reflexivity.
  - discriminate.
  - exists (String c s). reflexivity.
  - cbn [String.prefix] in H.
    destruct (ascii_dec b c) as [->|]; [|discriminate].
    destruct (IH a H) as [t ->]. exists t. reflexivity.
Qed.

Lemma str_contains_split (a s : string) :
  str_contains a s = true -> exists p t, s = p +:+ (a +:+ t).
Proof.
  induction s as [|c s IH]; cbn [str_contains]; intros H.
  - destruct (String.prefix a EmptyString) eqn:E; [|discriminate].
    destruct (prefix_split _ _ E) as [t ->].
    exists EmptyString, t. reflexivity.
  - destruct (String.prefix a (String c s)) eqn:E.
    + destruct (prefix_split _ _ E) as [t Et]. rewrite Et.
      exists EmptyString, t. reflexivity.
    + destruct (IH H) as (p & t & ->). exists (String c p), t. reflexivity.
Qed.

Lemma str_contains_trans (a b s : string) :
  str_contains a b = true -> str_contains b s = true ->
  str_contains a s = true.
Proof.
  intros Hab Hbs.
  destruct (str_contains_split _ _ Hab) as (p & t & ->).
  destruct (str_contains_split _ _ Hbs) as (p' & t' & ->).
  rewrite !str_app_assoc, <- (str_app_assoc p' p).
  apply str_contains_app.
Qed.

Lemma str_contains_trans_false (a b s : string) :
  str_contains a b = true -> str_contains a s = false ->
  str_contains b s = false.
Proof.
  intros Hab Has. destruct (str_contains b s) eqn:E; [|reflexivity].
  rewrite (str_contains_trans _ _ _ Hab E) in Has. discriminate.
Qed.

Lemma dict_get_In {V : Type} (k : string) (v : V) (d : dict V) :
  dict_get k d = Some v -> In (k, v) d.
Proof.
  induction d as [|[k' v'] d IH]; cbn [dict_get]; [discriminate|].
  destruct (decide (k' = k)) as [->|_].
  - intros [= ->]. left. reflexivity.
  - intros H. right. apply IH, H.
Qed.

Lemma cost_monotone (n n' : Z) (p p' : Q) :
  0 <= n <= n' -> (0 <= p)%Q -> (p <= p')%Q ->
  (0 <= inject_Z n / 1000000 * p)%Q /\
  (inject_Z n / 1000000 * p <= inject_Z n' / 1000000 * p')%Q.
Proof.
  intros [Hn Hnn'] Hp Hpp'.
  assert (H0 : (0 <= inject_Z n / 1000000)%Q).
  { apply Qle_shift_div_l; [reflexivity|]. rewrite Qmult_0_l.
    change 0%Q with (inject_Z 0). rewrite <- Zle_Qle. exact Hn. }
  assert (H1 : (inject_Z n / 1000000 <= inject_Z n' / 1000000)%Q).
  { unfold Qdiv. apply Qmult_le_compat_r; [|discriminate].
    rewrite <- Zle_Qle. exact Hnn'. }
  split.
  - apply Qmult_le_0_compat; assumption.
  - apply Qmult_le_compat_nonneg; split; assumption.
Qed.

Lemma round_6_nonneg (x : Q) : (0 <= x)%Q -> (0 <= round x 6)%Q.
Proof.
  intros Hx. change 0%Q with (round 0 6) at 1. apply round_monotone, Hx.
Qed.

Module TokenStatsFacts.
Import TokenStats.

Lemma entry_prices :
  List.Forall
    (fun item =>
       let p := entry_pricing item.2 in
       (0 <= input p)%Q /\ (0 <= output p)%Q /\
       (forall x, input_extended p = Some x -> (input p <= x)%Q) /\
       (forall x, output_extended p = Some x -> (output p <= x)%Q))
    MODEL_PRICING.
Proof.
  unfold MODEL_PRICING.
  repeat (apply List.Forall_cons || apply List.Forall_nil);
    cbn; repeat split;
    try (intros x [= <-]); try discriminate; unfold Qle; simpl; lia.
Qed.

Lemma get_model_pricing_prices (model_name : string) :
  let p := get_model_pricing model_name in
  (0 <= input p)%Q /\ (0 <= output p)%Q /\
  (forall x, input_extended p = Some x -> (input p <= x)%Q) /\
  (forall x, output_extended p = Some x -> (output p <= x)%Q).
Proof.
  pose proof entry_prices as HF. rewrite List.Forall_forall in HF.
  unfold get_model_pricing.
  destruct (dict_get (lower model_name) MODEL_PRICING) as [e|] eqn:E.
  - apply dict_get_In in E. apply (HF _ E).
  - destruct (List.find (partial_match (lower model_name)) MODEL_PRICING)
      as [[k e]|] eqn:F.
    + apply List.find_some in F. apply (HF _ (proj1 F)).
    + cbn. repeat split; try discriminate; unfold Qle; simpl; lia.
Qed.

(** The prices and the costs that [calculate_cost] reports. *)
Lemma calculate_cost_shape (i o : Z) (model_name : string) (hours : Q)
    (cache_tokens : Z) :
  let p := get_model_pricing model_name in
  let c := calculate_cost i o model_name hours cache_tokens in
  let cache :=
    (if Qlt_le_dec 0 hours
     then if 0 <? cache_tokens
          then inject_Z cache_tokens / 1000000 * hours * 4.50
          else 0
     else 0)%Q in
  input_price_per_m c =
  match input_extended p with
  | Some e => if price_bool (Some e) && (threshold p <? i) then e else input p
  | None => input p
  end /\
  output_price_per_m c =
  match output_extended p with
  | Some e => if price_bool (Some e) && (threshold p <? o) then e else output p
  | None => output p
  end /\
  input_cost_usd c = round (inject_Z i / 1000000 * input_price_per_m c) 6 /\
  output_cost_usd c = round (inject_Z o / 1000000 * output_price_per_m c) 6 /\
  total_cost_usd c =
  round (inject_Z i / 1000000 * input_price_per_m c +
         inject_Z o / 1000000 * output_price_per_m c + cache) 6 /\
  context_cache_cost_usd c =
  (if Qlt_le_dec 0 cache then Some (round cache 6) else None) /\
  (0 <= cache)%Q.
Proof.
  intros p c cache. unfold c, calculate_cost. fold p.
  assert (Hc : (0 <= cache)%Q).
  { unfold cache. destruct (Qlt_le_dec 0 hours) as [Hh|]; [|apply Qle_refl].
    destruct (0 <? cache_tokens) eqn:Ht; [|apply Qle_refl].
    apply Z.ltb_lt in Ht.
    apply Qmult_le_0_compat; [|discriminate].
    apply Qmult_le_0_compat; [|apply Qlt_le_weak, Hh].
    apply Qle_shift_div_l; [reflexivity|]. rewrite Qmult_0_l.
    change 0%Q with (inject_Z 0). rewrite <- Zle_Qle. lia. }
  destruct (input_extended p) as [e|];
    [destruct (price_bool (Some e) && (threshold p <? i))|];
    cbn; repeat split; exact Hc.
Qed.

Lemma price_monotone (std : Q) (ext : option Q) (thr n n' : Z) :
  (0 <= std)%Q -> (forall x, ext = Some x -> (std <= x)%Q) -> n <= n' ->
  let price k :=
    match ext with
    | Some e => if price_bool (Some e) && (thr <? k) then e else std
    | None => std
    end in
  (0 <= price n)%Q /\ (price n <= price n')%Q.
Proof.
  intros Hstd Hext Hn price. unfold price.
  destruct ext as [e|]; [|split; [exact Hstd | apply Qle_refl]].
  specialize (Hext e eq_refl).
  destruct (price_bool (Some e)); cbn [andb];
    [|split; [exact Hstd | apply Qle_refl]].
  destruct (thr <? n) eqn:E1, (thr <? n') eqn:E2;
    try apply Z.ltb_lt in E1; try apply Z.ltb_ge in E2;
    try (exfalso; lia); split;
    try apply Qle_refl; try assumption;
    apply (Qle_trans _ std); assumption.
Qed.

(** A model name whose lower-case form occurs inside the first key of the
    table, the empty name among them, is priced as gemini-2.5-pro: the
    default prices are not used for it. *)
Theorem get_model_pricing_inside_first_key (model_name : string) :
  str_contains (lower model_name) "gemini-2.5-pro" = true ->
  get_model_pricing model_name =
  {| input := 1.25; output := 10; input_extended := Some 2.50%Q;
     output_extended := Some 15%Q; threshold := 200000 |}.
Proof.
  intros H. unfold get_model_pricing.
  remember (lower model_name) as K eqn:HK. clear HK.
  destruct (dict_get K MODEL_PRICING) as [e|] eqn:E.
  - apply dict_get_In in E. unfold MODEL_PRICING in E. cbn [In] in E.
    repeat (destruct E as [E|E];
            [injection E as <- <-;
             first [reflexivity | vm_compute in H; discriminate]|]).
    destruct E.
  - unfold MODEL_PRICING. cbn [List.find]. unfold partial_match at 1.
    cbn [fst]. rewrite H, orb_true_r. reflexivity.
Qed.

Lemma get_model_pricing_inside_first_key_witness :
  get_model_pricing "Pro" =
  {| input := 1.25; output := 10; input_extended := Some 2.50%Q;
     output_extended := Some 15%Q; threshold := 200000 |}.
Proof.
  apply (get_model_pricing_inside_first_key "Pro"). vm_compute. reflexivity.
Defined.

(** A name that contains gemini-1.5-flash-8b without being equal to it, such
    as a versioned name, and that contains neither gemini-2.5 nor
    gemini-1.5-pro, gets the prices of gemini-1.5-flash, which stands before
    gemini-1.5-flash-8b in the table, and not the prices of
    gemini-1.5-flash-8b. *)
Theorem get_model_pricing_flash_8b_variant (model_name : string) :
  str_contains "gemini-1.5-flash-8b" (lower model_name) = true ->
  lower model_name <> "gemini-1.5-flash-8b" ->
  str_contains "gemini-2.5" (lower model_name) = false ->
  str_contains "gemini-1.5-pro" (lower model_name) = false ->
  get_model_pricing model_name = get_model_pricing "gemini-1.5-flash" /\
  input (get_model_pricing model_name) = 0.075%Q /\
  output (get_model_pricing model_name) = 0.30%Q /\
  input (get_model_pricing "gemini-1.5-flash-8b") = 0.0375%Q /\
  output (get_model_pricing "gemini-1.5-flash-8b") = 0.15%Q.
Proof.
  intros H1 H2 H3 H4.
  assert (G : get_model_pricing model_name =
              get_model_pricing "gemini-1.5-flash").
  { unfold get_model_pricing at 1.
    remember (lower model_name) as K eqn:HK. clear HK.
    assert (E : dict_get K MODEL_PRICING = None).
    { destruct (dict_get K MODEL_PRICING) as [e|] eqn:E; [|reflexivity].
      apply dict_get_In in E. unfold MODEL_PRICING in E. cbn [In] in E.
      exfalso.
      repeat (destruct E as [E|E];
              [injection E as <- <-;
               first [ vm_compute in H3; discriminate
                     | vm_compute in H4; discriminate
                     | vm_compute in H1; discriminate
                     | congruence ]|]).
      exact E. }
    rewrite E.
    assert (T : forall key,
              str_contains "gemini-1.5-flash-8b" key = false ->
              str_contains K key = false).
    { intros key. apply str_contains_trans_false, H1. }
    assert (N1 : str_contains "gemini-2.5-pro" K = false).
    { apply (str_contains_trans_false "gemini-2.5"); [reflexivity | exact H3]. }
    assert (N2 : str_contains "gemini-2.5-flash" K = false).
    { apply (str_contains_trans_false "gemini-2.5"); [reflexivity | exact H3]. }
    assert (N3 : str_contains "gemini-2.5-flash-preview-09-2025" K = false).
    { apply (str_contains_trans_false "gemini-2.5"); [reflexivity | exact H3]. }
    assert (N5 : str_contains "gemini-1.5-flash" K = true).
    { apply (str_contains_trans _ "gemini-1.5-flash-8b");
        [reflexivity | exact H1]. }
    unfold MODEL_PRICING. cbn [List.find]. unfold partial_match.
    cbn [fst].
    rewrite N1, N2, N3, H4, N5.
    rewrite !T by reflexivity. reflexivity. }
  split; [exact G|]. rewrite G. repeat split; reflexivity.
Qed.

Lemma get_model_pricing_flash_8b_variant_witness :
  get_model_pricing "Gemini-1.5-Flash-8B-latest" =
  get_model_pricing "gemini-1.5-flash" /\
  input (get_model_pricing "Gemini-1.5-Flash-8B-latest") = 0.075%Q /\
  output (get_model_pricing "Gemini-1.5-Flash-8B-latest") = 0.30%Q /\
  input (get_model_pricing "gemini-1.5-flash-8b") = 0.0375%Q /\
  output (get_model_pricing "gemini-1.5-flash-8b") = 0.15%Q.
Proof.
  apply (get_model_pricing_flash_8b_variant "Gemini-1.5-Flash-8B-latest").
  - vm_compute. reflexivity.
  - vm_compute. discriminate.
  - vm_compute. reflexivity.
  - vm_compute. reflexivity.
Defined.

(** For every model name and token counts that are not negative, the input
    and the output cost are not negative, neither exceeds the total, and
    more tokens never cost less: each reported cost grows with the input
    and with the output token count, across the extended-price threshold
    too. *)
Theorem calculate_cost_monotone (model_name : string) (i i' o o' : Z)
    (hours : Q) (cache_tokens : Z) :
  0 <= i <= i' -> 0 <= o <= o' ->
  let c := calculate_cost i o model_name hours cache_tokens in
  let c' := calculate_cost i' o' model_name hours cache_tokens in
  (0 <= input_cost_usd c)%Q /\ (input_cost_usd c <= input_cost_usd c')%Q /\
  (0 <= output_cost_usd c)%Q /\ (output_cost_usd c <= output_cost_usd c')%Q /\
  (input_cost_usd c <= total_cost_usd c)%Q /\
  (output_cost_usd c <= total_cost_usd c)%Q /\
  (total_cost_usd c <= total_cost_usd c')%Q.
Proof.
  intros Hi Ho c c'.
  destruct (get_model_pricing_prices model_name) as (Pi & Po & Pie & Poe).
  destruct (calculate_cost_shape i o model_name hours cache_tokens)
    as (Ei & Eo & Eic & Eoc & Et & _ & Hcache).
  destruct (calculate_cost_shape i' o' model_name hours cache_tokens)
    as (Ei' & Eo' & Eic' & Eoc' & Et' & _ & _).
  fold c in Ei, Eo, Eic, Eoc, Et. fold c' in Ei', Eo', Eic', Eoc', Et'.
  destruct (price_monotone _ _ (threshold (get_model_pricing model_name))
              i i' Pi Pie (proj2 Hi)) as [Hp0 Hp1].
  destruct (price_monotone _ _ (threshold (get_model_pricing model_name))
              o o' Po Poe (proj2 Ho)) as [Hq0 Hq1].
  cbv beta in Hp0, Hp1, Hq0, Hq1.
  rewrite <- Ei in Hp0, Hp1. rewrite <- Ei' in Hp1.
  rewrite <- Eo in Hq0, Hq1. rewrite <- Eo' in Hq1.
  destruct (cost_monotone i i' _ _ Hi Hp0 Hp1) as [Hic0 Hic1].
  destruct (cost_monotone o o' _ _ Ho Hq0 Hq1) as [Hoc0 Hoc1].
  rewrite Eic, Eic', Eoc, Eoc', Et, Et'.
  repeat split.
  - apply round_6_nonneg, Hic0.
  - apply round_monotone, Hic1.
  - apply round_6_nonneg, Hoc0.
  - apply round_monotone, Hoc1.
  - apply round_monotone. lra.
  - apply round_monotone. lra.
  - apply round_monotone. lra.
Qed.

Lemma calculate_cost_monotone_witness :
  (input_cost_usd (calculate_cost 200000 100 "gemini-2.5-pro" 0 0) <=
   input_cost_usd (calculate_cost 200001 100 "gemini-2.5-pro" 0 0))%Q.
Proof.
  apply (proj1 (proj2 (calculate_cost_monotone "gemini-2.5-pro"
                         200000 200001 100 100 0 0 ltac:(lia) ltac:(lia)))).
Defined.

(** For the two models that have extended prices, the reported tier is
    "extended" exactly when the input token count is above 200000 (200000
    itself is standard), and then the extended input price applies.  The
    tier follows the input only: with at most 200000 input tokens and more
    than 200000 output tokens the tier reads "standard" while the output is
    charged at the extended output price. *)
Theorem calculate_cost_pricing_tier (model_name : string) (i o : Z)
    (hours : Q) (cache_tokens : Z) :
  lower model_name = "gemini-2.5-pro" \/
  lower model_name = "gemini-1.5-pro" ->
  let c := calculate_cost i o model_name hours cache_tokens in
  (pricing_tier c = "extended" <-> 200000 < i) /\
  (pricing_tier c = "standard" <-> i <= 200000) /\
  input_price_per_m c = (if 200000 <? i then 2.50 else 1.25)%Q /\
  (200000 < o ->
   output_extended (get_model_pricing model_name) =
   Some (output_price_per_m c)) /\
  (o <= 200000 ->
   output_price_per_m c = output (get_model_pricing model_name)).
Proof.
  intros Hm c.
  assert (P : get_model_pricing model_name =
              {| input := 1.25; output := 10; input_extended := Some 2.50%Q;
                 output_extended := Some 15%Q; threshold := 200000 |} \/
              get_model_pricing model_name =
              {| input := 1.25; output := 5; input_extended := Some 2.50%Q;
                 output_extended := Some 7.50%Q; threshold := 200000 |}).
  { unfold get_model_pricing.
    destruct Hm as [-> | ->]; [left | right]; reflexivity. }
  unfold c, calculate_cost.
  destruct P as [-> | ->];
    cbn [input output input_extended output_extended threshold];
    change (price_bool (Some 2.50%Q)) with true;
    change (price_bool (Some 15%Q)) with true;
    change (price_bool (Some 7.50%Q)) with true;
    cbn [andb];
    destruct (200000 <? i) eqn:Ei, (200000 <? o) eqn:Eo;
    try apply Z.ltb_lt in Ei; try apply Z.ltb_ge in Ei;
    try apply Z.ltb_lt in Eo; try apply Z.ltb_ge in Eo;
    cbn [pricing_tier input_price_per_m output_price_per_m];
    (split; [split; [try discriminate; intros _; exact Ei
                    | try reflexivity; intros; lia]|]);
    (split; [split; [try discriminate; intros _; try exact Ei; lia
                    | try reflexivity; intros; lia]|]);
    (split; [reflexivity|]);
    split; intros; first [reflexivity | lia].
Qed.

Lemma calculate_cost_pricing_tier_witness :
  pricing_tier (calculate_cost 200000 200001 "Gemini-2.5-Pro" 0 0) =
  "standard" /\
  output_extended (get_model_pricing "Gemini-2.5-Pro") =
  Some (output_price_per_m
          (calculate_cost 200000 200001 "Gemini-2.5-Pro" 0 0)).
Proof.
  destruct (calculate_cost_pricing_tier "Gemini-2.5-Pro" 200000 200001 0 0
              (or_introl eq_refl)) as (_ & Hs & _ & Ho & _).
  split; [apply Hs; lia | apply Ho; lia].
Defined.



End TokenStatsFacts.
